(** * SQLite introspection for Django 1.0.2 (db/backends/sqlite3/introspection.py)

    A shallow embedding of [FlexibleFieldLookupDict] and
    [DatabaseIntrospection], with the properties of the type-name lookup and
    of the schema queries proved against it.

    Python byte strings are [string]; dictionaries are [gmap]; exceptions
    are the [Raise] case of [result]; the cursor is threaded explicitly. *)

From Stdlib Require Import ZArith Ascii String List Lia.
From stdpp Require Import base option gmap strings list sorting.

Local Open Scope Z_scope.

(** ** Exceptions *)

Inductive exn := KeyError | NotImplementedError | ValueError | TypeError.

Inductive result (A : Type) :=
| Ok (a : A)
| Raise (e : exn).
Arguments Ok {A} a.
Arguments Raise {A} e.

(** ** Byte strings *)

Module Str.

(** [str.lower()] on a byte string: only [A-Z] change. *)
Definition is_upper (c : ascii) : bool :=
  (65 <=? nat_of_ascii c)%nat && (nat_of_ascii c <=? 90)%nat.

Definition is_lower (c : ascii) : bool :=
  (97 <=? nat_of_ascii c)%nat && (nat_of_ascii c <=? 122)%nat.

Definition lower_ascii (c : ascii) : ascii :=
  if is_upper c then ascii_of_nat (nat_of_ascii c + 32) else c.

Definition upper_ascii (c : ascii) : ascii :=
  if is_lower c then ascii_of_nat (nat_of_ascii c - 32) else c.

Fixpoint lower (s : string) : string :=
  match s with
  | EmptyString => EmptyString
  | String c s' => String (lower_ascii c) (lower s')
  end.

(** The class [\s] of a byte pattern: space, \t, \n, \v, \f, \r. *)
Definition is_space (c : ascii) : bool :=
  let n := nat_of_ascii c in
  (n =? 32)%nat || ((9 <=? n)%nat && (n <=? 13)%nat).

(** The class [\d] of a byte pattern: [0-9]. *)
Definition is_digit (c : ascii) : bool :=
  (48 <=? nat_of_ascii c)%nat && (nat_of_ascii c <=? 57)%nat.

Fixpoint all (p : ascii -> bool) (s : string) : bool :=
  match s with
  | EmptyString => true
  | String c s' => p c && all p s'
  end.

Fixpoint mem (c : ascii) (s : string) : bool :=
  match s with
  | EmptyString => false
  | String d s' => Ascii.eqb c d || mem c s'
  end.

(** [s] spells [k] with some of its letters in upper case. *)
Fixpoint recased (k s : string) : bool :=
  match k, s with
  | EmptyString, EmptyString => true
  | String b k', String a s' =>
      (Ascii.eqb a b || Ascii.eqb a (upper_ascii b)) && recased k' s'
  | _, _ => false
  end.

Definition starts_with_space (s : string) : bool :=
  match s with
  | EmptyString => false
  | String c _ => is_space c
  end.

Fixpoint ends_with_space (s : string) : bool :=
  match s with
  | EmptyString => false
  | String c EmptyString => is_space c
  | String _ s' => ends_with_space s'
  end.

(** A key as the table spells them: lower case, no parenthesis, no white
    space at either end. *)
Definition plain (k : string) : bool :=
  String.eqb (lower k) k && negb (mem "(" k)
  && negb (starts_with_space k) && negb (ends_with_space k).

(** [int(s)] on a run of decimal digits, most significant first. Any other
    argument is reported as [None] (the caller only passes [\d+]). *)
Definition digit_value (c : ascii) : Z := Z.of_nat (nat_of_ascii c) - 48.

Fixpoint int_acc (acc : Z) (s : string) : option Z :=
  match s with
  | EmptyString => Some acc
  | String c s' =>
      if is_digit c then int_acc (10 * acc + digit_value c) s' else None
  end.

Definition int (s : string) : option Z :=
  match s with
  | EmptyString => None
  | _ => int_acc 0 s
  end.

(** The number a digit string denotes, by positional weight. *)
Fixpoint decimal (s : string) : Z :=
  match s with
  | EmptyString => 0
  | String c s' => digit_value c * 10 ^ Z.of_nat (String.length s') + decimal s'
  end.

End Str.

(** ** The part of the [re] module the lookup uses

    A backtracking matcher in continuation-passing style: greedy
    repetition and option, leftmost match, groups recorded as spans of the
    subject string. *)

Module Re.

Inductive regex :=
| Eps
| Bol                                  (* ^ *)
| Eol                                  (* $ *)
| Class (p : ascii -> bool)            (* one character of a class *)
| Cat (r1 r2 : regex)
| Opt (r : regex)                      (* r? *)
| Star (r : regex)                     (* r* *)
| Group (i : nat) (r : regex).         (* ( r ) *)

Definition Chr (c : ascii) : regex := Class (Ascii.eqb c).
Definition Plus (r : regex) : regex := Cat r (Star r).

Fixpoint Lit (s : string) : regex :=
  match s with
  | EmptyString => Eps
  | String c s' => Cat (Chr c) (Lit s')
  end.

Fixpoint Seq (rs : list regex) : regex :=
  match rs with
  | [] => Eps
  | r :: rs' => Cat r (Seq rs')
  end.

Abbreviation spans := (gmap nat (nat * nat)).

(** A continuation receives the position reached, the rest of the subject
    and the groups closed so far. *)
Definition cont := nat -> string -> spans -> option spans.

(** Greedy loop: one more iteration first, the continuation when that
    fails. An iteration has to consume; [n] bounds the iterations by the
    length of the subject. *)
Fixpoint star_loop (body : cont -> cont) (k : cont) (n : nat) : cont :=
  fun pos s cs =>
    let again : cont := fun pos' s' cs' =>
      match n with
      | O => None
      | S n' =>
          if (String.length s' <? String.length s)%nat
          then star_loop body k n' pos' s' cs'
          else None
      end in
    match body again pos s cs with
    | Some m => Some m
    | None => k pos s cs
    end.

Fixpoint rmatch (r : regex) : cont -> cont :=
  match r with
  | Eps => fun k => k
  | Bol => fun k pos s cs => if (pos =? 0)%nat then k pos s cs else None
  | Eol => fun k pos s cs =>
      match s with
      | EmptyString => k pos s cs
      | String c EmptyString =>
          if Ascii.eqb c "010" then k pos s cs else None
      | _ => None
      end
  | Class p => fun k pos s cs =>
      match s with
      | String c s' => if p c then k (S pos) s' cs else None
      | EmptyString => None
      end
  | Cat r1 r2 => fun k => rmatch r1 (rmatch r2 k)
  | Opt r1 => fun k pos s cs =>
      match rmatch r1 k pos s cs with
      | Some m => Some m
      | None => k pos s cs
      end
  | Star r1 => fun k pos s cs =>
      star_loop (rmatch r1) k (String.length s) pos s cs
  | Group i r1 => fun k pos s cs =>
      rmatch r1 (fun pos' s' cs' => k pos' s' (<[i := (pos, pos')]> cs')) pos s cs
  end.

Definition accept : cont := fun _ _ cs => Some cs.

(** [re.search]: the first start offset at which the pattern matches. *)
Fixpoint search_from (r : regex) (pos : nat) (s : string) : option spans :=
  match rmatch r accept pos s ∅ with
  | Some cs => Some cs
  | None =>
      match s with
      | EmptyString => None
      | String _ s' => search_from r (S pos) s'
      end
  end.

Record match_object := { subject : string; groups : spans }.

Definition search (r : regex) (s : string) : option match_object :=
  match search_from r 0 s with
  | Some cs => Some {| subject := s; groups := cs |}
  | None => None
  end.

(** [m.group(i)]: the text of group [i], [None] when it took no part. *)
Definition group (m : match_object) (i : nat) : option string :=
  match groups m !! i with
  | Some (b, e) => Some (String.substring b (e - b) (subject m))
  | None => None
  end.

(** The next character of [rest], if any, is outside the class [p]: a
    greedy run of [p] cannot go on into [rest]. *)
Definition stops (p : ascii -> bool) (rest : string) : Prop :=
  match rest with
  | EmptyString => True
  | String c _ => p c = false
  end.

End Re.

(** ** FlexibleFieldLookupDict *)

(** What a lookup returns: a field name, or a field name with its keyword
    arguments. *)
Inductive field_type :=
| FieldName (name : string)
| FieldWithParams (name : string) (params : gmap string Z).

Module FlexibleFieldLookupDict.

Definition entries : list (string * string) :=
  [ ("bool", "BooleanField");
    ("boolean", "BooleanField");
    ("smallint", "SmallIntegerField");
    ("smallint unsigned", "PositiveSmallIntegerField");
    ("smallinteger", "SmallIntegerField");
    ("int", "IntegerField");
    ("integer", "IntegerField");
    ("integer unsigned", "PositiveIntegerField");
    ("decimal", "DecimalField");
    ("real", "FloatField");
    ("text", "TextField");
    ("char", "CharField");
    ("date", "DateField");
    ("datetime", "DateTimeField");
    ("time", "TimeField") ].

Definition base_data_types_reverse : gmap string string :=
  list_to_map entries.

(** r'^\s*(?:var)?char\s*\(\s*(\d+)\s*\)\s*$' *)
Definition char_type_re : Re.regex :=
  Re.Seq
    [ Re.Bol;
      Re.Star (Re.Class Str.is_space);
      Re.Opt (Re.Lit "var");
      Re.Lit "char";
      Re.Star (Re.Class Str.is_space);
      Re.Chr "(";
      Re.Star (Re.Class Str.is_space);
      Re.Group 1 (Re.Plus (Re.Class Str.is_digit));
      Re.Star (Re.Class Str.is_space);
      Re.Chr ")";
      Re.Star (Re.Class Str.is_space);
      Re.Eol ].

(** The pattern from "char" on, after the optional "var". *)
Definition char_type_tail : Re.regex :=
  Re.Seq
    [ Re.Lit "char";
      Re.Star (Re.Class Str.is_space);
      Re.Chr "(";
      Re.Star (Re.Class Str.is_space);
      Re.Group 1 (Re.Plus (Re.Class Str.is_digit));
      Re.Star (Re.Class Str.is_space);
      Re.Chr ")";
      Re.Star (Re.Class Str.is_space);
      Re.Eol ].

Definition __getitem__ (key : string) : result field_type :=
  let key := Str.lower key in
  match base_data_types_reverse !! key with
  | Some name => Ok (FieldName name)
  | None =>
      match Re.search char_type_re key with
      | Some m =>
          match Re.group m 1 with
          | Some digits =>
              match Str.int digits with
              | Some n =>
                  Ok (FieldWithParams "CharField" {[ "max_length" := n ]})
              | None => Raise ValueError
              end
          | None => Raise TypeError
          end
      | None => Raise KeyError
      end
  end.

(** The strings the comment of the class calls types with variables in
    them, after lowering: "char(N)" or "varchar(N)", with white space
    allowed in front, around each parenthesis and at the end, [digits]
    being the text of N. *)
Definition char_type_form (s digits : string) : Prop :=
  exists ws1 var ws2 ws3 ws4 ws5 : string,
    s = ws1 +:+ var +:+ "char" +:+ ws2 +:+ "(" +:+ ws3 +:+ digits
            +:+ ws4 +:+ ")" +:+ ws5
    /\ (var = "" \/ var = "var")
    /\ Str.all Str.is_space ws1 = true
    /\ Str.all Str.is_space ws2 = true
    /\ Str.all Str.is_space ws3 = true
    /\ Str.all Str.is_space ws4 = true
    /\ Str.all Str.is_space ws5 = true
    /\ digits <> ""
    /\ Str.all Str.is_digit digits = true.

End FlexibleFieldLookupDict.

(** ** The database behind the cursor

    The catalog as the three pragmas and [sqlite_master] show it. A pragma
    is looked up by the argument text the statement carries. *)

Module Sqlite.

(** A row of [sqlite_master]: type, name (tbl_name, rootpage and sql are
    not read). *)
Record master_row := { m_type : string; m_name : string }.

(** PRAGMA table_info: cid, name, type, notnull, dflt_value, pk. *)
Record column_row := {
  c_cid : Z;
  c_name : string;
  c_type : string;
  c_notnull : Z;
  c_dflt_value : option string;
  c_pk : Z }.

(** PRAGMA index_list: seq, name, unique. *)
Record index_row := { i_seq : Z; i_name : string; i_unique : Z }.

(** PRAGMA index_info: seqno, cid, name. *)
Record index_column_row := { ic_seqno : Z; ic_cid : Z; ic_name : string }.

Record database := {
  sqlite_master : list master_row;
  table_info : string -> list column_row;
  index_list : string -> list index_row;
  index_info : string -> list index_column_row }.

Inductive statement :=
| SelectTableNames
| PragmaTableInfo (arg : string)
| PragmaIndexList (arg : string)
| PragmaIndexInfo (arg : string).

(** SELECT name FROM sqlite_master
    WHERE type='table' AND NOT name='sqlite_sequence'
    ORDER BY name
    (the name column has the BINARY collation: bytewise order). *)
Definition select_table_names (db : database) : list string :=
  merge_sort String.le
    (m_name <$>
       filter (fun r => m_type r = "table" /\ ~ m_name r = "sqlite_sequence")
              (sqlite_master db)).

End Sqlite.

(** ** The cursor and the monad of the introspection methods *)

Record cursor := {
  connection : Sqlite.database;
  executed : list Sqlite.statement }.

Definition M (A : Type) : Type := cursor -> result A * cursor.

Definition ret {A} (a : A) : M A := fun c => (Ok a, c).

Definition raise {A} (e : exn) : M A := fun c => (Raise e, c).

Definition bind {A B} (m : M A) (k : A -> M B) : M B :=
  fun c =>
    match m c with
    | (Ok a, c') => k a c'
    | (Raise e, c') => (Raise e, c')
    end.

Notation "'let*' x ':=' m 'in' k" := (bind m (fun x => k))
  (at level 10, x pattern, m at level 100, k at level 200).

(** A [for] loop whose body may raise. *)
Fixpoint for_each {A S} (body : S -> A -> M S) (st : S) (l : list A) : M S :=
  match l with
  | [] => ret st
  | x :: l' => let* st' := body st x in for_each body st' l'
  end.

(** [cursor.execute(sql)] followed by [cursor.fetchall()], for each of the
    four statements of the file. *)
Definition log (q : Sqlite.statement) (c : cursor) : cursor :=
  {| connection := connection c; executed := executed c ++ [q] |}.

Definition fetch_table_names : M (list string) :=
  fun c => (Ok (Sqlite.select_table_names (connection c)),
            log Sqlite.SelectTableNames c).

Definition fetch_table_info (arg : string) : M (list Sqlite.column_row) :=
  fun c => (Ok (Sqlite.table_info (connection c) arg),
            log (Sqlite.PragmaTableInfo arg) c).

Definition fetch_index_list (arg : string) : M (list Sqlite.index_row) :=
  fun c => (Ok (Sqlite.index_list (connection c) arg),
            log (Sqlite.PragmaIndexList arg) c).

Definition fetch_index_info (arg : string) : M (list Sqlite.index_column_row) :=
  fun c => (Ok (Sqlite.index_info (connection c) arg),
            log (Sqlite.PragmaIndexInfo arg) c).

(** ** DatabaseIntrospection *)

(** Python values that occur in a description tuple. *)
Inductive pyval :=
| PyNone
| PyStr (s : string)
| PyBool (b : bool).

(** The dictionaries [_table_info] builds. *)
Record column_info := {
  name : string;
  type : string;
  null_ok : bool;
  pk : Z }.

(** The dictionaries [get_indexes] builds. *)
Record index_flags := { primary_key : bool; unique : bool }.

(** Truth value of an integer. *)
Definition truthy (z : Z) : bool := negb (z =? 0).

Module DatabaseIntrospection.
Section WithOps.

(** [self.connection.ops.quote_name], defined by the backend's operations
  class. *)
Variable quote_name : string -> string.

Definition data_types_reverse := FlexibleFieldLookupDict.__getitem__.

Definition _table_info (table_name : string) : M (list column_info) :=
let* rows := fetch_table_info (quote_name table_name) in
ret ((fun field =>
        {| name := Sqlite.c_name field;
           type := Sqlite.c_type field;
           null_ok := negb (truthy (Sqlite.c_notnull field));
           pk := Sqlite.c_pk field |}) <$> rows).

Definition get_table_list : M (list string) :=
let* rows := fetch_table_names in
ret ((fun row => row) <$> rows).  (* row[0] of a one-column row *)

Definition get_table_description (table_name : string) : M (list (list pyval)) :=
let* infos := _table_info table_name in
ret ((fun info =>
        [ PyStr (name info); PyStr (type info);
          PyNone; PyNone; PyNone; PyNone;
          PyBool (null_ok info) ]) <$> infos).

Definition get_relations (table_name : string) : M (list (string * string)) :=
raise NotImplementedError.

(** The body of the loop of [get_indexes] over (index, unique). *)
Definition mark_unique (indexes : gmap string index_flags)
  (row : string * Z) : M (gmap string index_flags) :=
let '(index, unique) := row in
if negb (truthy unique) then ret indexes
else
  let* info := fetch_index_info (quote_name index) in
  match info with
  | [col] =>
      let name := Sqlite.ic_name col in
      match indexes !! name with
      | Some d =>
          ret (<[ name := {| primary_key := primary_key d;
                             unique := true |} ]> indexes)
      | None => raise KeyError
      end
  | _ => ret indexes   (* across several fields: skipped *)
  end.

(** The first loop of [get_indexes]: an entry for each dictionary of
  [_table_info], a later one replacing an earlier one of the same
  name. *)
Definition initial_indexes (infos : list column_info)
  : gmap string index_flags :=
foldl (fun (ix : gmap string index_flags) info =>
         <[ name info := {| primary_key := negb (pk info =? 0);
                            unique := false |} ]> ix)
      ∅ infos.

Definition get_indexes (table_name : string) : M (gmap string index_flags) :=
let* infos := _table_info table_name in
let indexes := initial_indexes infos in
let* rows := fetch_index_list (quote_name table_name) in
for_each mark_unique indexes
  ((fun field => (Sqlite.i_name field, Sqlite.i_unique field)) <$> rows).

End WithOps.
End DatabaseIntrospection.

(** ** Vocabulary of the statements about the introspection *)

(** Index [ix] of the catalog [db] is unique and covers the single column
    [col]. *)
Definition unique_on (quote_name : string -> string) (db : Sqlite.database)
    (ix : Sqlite.index_row) (col : string) : Prop :=
  Sqlite.i_unique ix <> 0
  /\ exists r, Sqlite.index_info db (quote_name (Sqlite.i_name ix)) = [r]
               /\ Sqlite.ic_name r = col.

(** The row of [cols] that decides the entry of column [col]: the last one
    of that name. *)
Definition column_row (cols : list Sqlite.column_row) (col : string)
    : option Sqlite.column_row :=
  last (filter (fun r => Sqlite.c_name r = col) cols).

(** [m'] is [m] with the unique flag set on the columns that a unique
    single-column index among [rows] covers, and nothing else changed. *)
Definition marked (quote_name : string -> string) (db : Sqlite.database)
    (rows : list Sqlite.index_row) (m m' : gmap string index_flags) : Prop :=
  forall n,
    match m !! n with
    | None => m' !! n = None
    | Some e =>
        exists e', m' !! n = Some e'
          /\ primary_key e' = primary_key e
          /\ (unique e' = true <->
               unique e = true
               \/ exists ix, ix ∈ rows /\ unique_on quote_name db ix n)
    end.

(** Position [i] is a null placeholder in every tuple of every description. *)
Definition always_null (i : nat) : Prop :=
  forall quote_name table_name c tuples c',
    DatabaseIntrospection.get_table_description quote_name table_name c
      = (Ok tuples, c') ->
    forall tuple, tuple ∈ tuples -> tuple !! i = Some PyNone.

(** Quoting as the SQLite backend does it for a bare name: the name between
    double quotes. *)
Definition example_quote (name : string) : string :=
  String "034" (name +:+ String "034" "").

(** A one-table catalog used in the examples: table "t" with columns
    id (primary key), a, b, and the indexes the examples choose. *)
Definition example_db (indexes : list Sqlite.index_row)
    (info : string -> list Sqlite.index_column_row) : Sqlite.database :=
  {| Sqlite.sqlite_master :=
       [ {| Sqlite.m_type := "table"; Sqlite.m_name := "t" |};
         {| Sqlite.m_type := "table"; Sqlite.m_name := "sqlite_sequence" |};
         {| Sqlite.m_type := "index"; Sqlite.m_name := "a_idx" |};
         {| Sqlite.m_type := "table"; Sqlite.m_name := "T" |} ];
     Sqlite.table_info := fun arg =>
       if String.eqb arg (example_quote "t") then
         [ {| Sqlite.c_cid := 0; Sqlite.c_name := "id"; Sqlite.c_type := "integer";
              Sqlite.c_notnull := 1; Sqlite.c_dflt_value := None; Sqlite.c_pk := 1 |};
           {| Sqlite.c_cid := 1; Sqlite.c_name := "a"; Sqlite.c_type := "varchar(30)";
              Sqlite.c_notnull := 0; Sqlite.c_dflt_value := None; Sqlite.c_pk := 0 |};
           {| Sqlite.c_cid := 2; Sqlite.c_name := "b"; Sqlite.c_type := "text";
              Sqlite.c_notnull := 0; Sqlite.c_dflt_value := None; Sqlite.c_pk := 0 |} ]
       else [];
     Sqlite.index_list := fun arg =>
       if String.eqb arg (example_quote "t") then indexes else [];
     Sqlite.index_info := info |}.

Definition example_cursor (db : Sqlite.database) : cursor :=
  {| connection := db; executed := [] |}.

(** "t" with one unique index, over (a, b). *)
Definition composite_db : Sqlite.database :=
  example_db
    [ {| Sqlite.i_seq := 0; Sqlite.i_name := "ab_idx"; Sqlite.i_unique := 1 |} ]
    (fun arg =>
       if String.eqb arg (example_quote "ab_idx") then
         [ {| Sqlite.ic_seqno := 0; Sqlite.ic_cid := 1; Sqlite.ic_name := "a" |};
           {| Sqlite.ic_seqno := 1; Sqlite.ic_cid := 2; Sqlite.ic_name := "b" |} ]
       else []).

(** "t" with a unique index over a and a plain index over b. *)
Definition single_db : Sqlite.database :=
  example_db
    [ {| Sqlite.i_seq := 0; Sqlite.i_name := "a_idx"; Sqlite.i_unique := 1 |};
      {| Sqlite.i_seq := 1; Sqlite.i_name := "b_idx"; Sqlite.i_unique := 0 |} ]
    (fun arg =>
       if String.eqb arg (example_quote "a_idx") then
         [ {| Sqlite.ic_seqno := 0; Sqlite.ic_cid := 1; Sqlite.ic_name := "a" |} ]
       else if String.eqb arg (example_quote "b_idx") then
         [ {| Sqlite.ic_seqno := 0; Sqlite.ic_cid := 2; Sqlite.ic_name := "b" |} ]
       else []).

(** * Properties *)

Import FlexibleFieldLookupDict.

(** ** Strings *)

Section StringFacts.

Lemma app_cons c (s t : string) : String c s +:+ t = String c (s +:+ t).
Proof. reflexivity. Qed.

Lemma app_empty_l (s : string) : "" +:+ s = s.
Proof. reflexivity. Qed.

Lemma app_empty_r (s : string) : s +:+ "" = s.
Proof. induction s as [|c s IH]; [done|]. by rewrite app_cons, IH. Qed.

Lemma app_assoc (a b c : string) : (a +:+ b) +:+ c = a +:+ b +:+ c.
Proof. induction a as [|x a IH]; [done|]. by rewrite !app_cons, IH. Qed.

Lemma length_app (a b : string) :
  String.length (a +:+ b) = (String.length a + String.length b)%nat.
Proof. induction a as [|x a IH]; [done|]. rewrite app_cons. simpl. by rewrite IH. Qed.

Lemma substring_prefix (a r : string) :
  String.substring 0 (String.length a) (a +:+ r) = a.
Proof.
  induction a as [|x a IH].
  - by destruct r.
  - rewrite app_cons. simpl. by rewrite IH.
Qed.

Lemma substring_skip (a r : string) n :
  String.substring (String.length a) n (a +:+ r) = String.substring 0 n r.
Proof. induction a as [|x a IH]; [done|]. rewrite app_cons. simpl. apply IH. Qed.

Lemma substring_middle (a d r : string) b n :
  b = String.length a -> n = String.length d ->
  String.substring b n (a +:+ d +:+ r) = d.
Proof. intros -> ->. rewrite substring_skip. apply substring_prefix. Qed.

Lemma all_app p (a b : string) : Str.all p (a +:+ b) = Str.all p a && Str.all p b.
Proof.
  induction a as [|x a IH]; [done|]. rewrite app_cons. simpl.
  rewrite IH. by destruct (p x).
Qed.

Lemma mem_app c (a b : string) : Str.mem c (a +:+ b) = Str.mem c a || Str.mem c b.
Proof.
  induction a as [|x a IH]; [done|]. rewrite app_cons. simpl.
  rewrite IH. by destruct (Ascii.eqb c x).
Qed.

Lemma lower_app (a b : string) : Str.lower (a +:+ b) = Str.lower a +:+ Str.lower b.
Proof. induction a as [|x a IH]; [done|]. rewrite app_cons. simpl. by rewrite IH, app_cons. Qed.

(** Characters that [lower] leaves alone. *)
Lemma lower_ascii_space c : Str.is_space c = true -> Str.lower_ascii c = c.
Proof. destruct c as [[] [] [] [] [] [] [] []]; vm_compute; congruence. Qed.

Lemma lower_ascii_digit c : Str.is_digit c = true -> Str.lower_ascii c = c.
Proof. destruct c as [[] [] [] [] [] [] [] []]; vm_compute; congruence. Qed.

Lemma lower_fixed p (s : string) :
  (forall c, p c = true -> Str.lower_ascii c = c) ->
  Str.all p s = true -> Str.lower s = s.
Proof.
  intros Hp. induction s as [|c s IH]; [done|]. simpl.
  intros [Hc Hs]%andb_true_iff. by rewrite (Hp c Hc), IH.
Qed.

Lemma lower_spaces s : Str.all Str.is_space s = true -> Str.lower s = s.
Proof. apply lower_fixed, lower_ascii_space. Qed.

Lemma lower_digits s : Str.all Str.is_digit s = true -> Str.lower s = s.
Proof. apply lower_fixed, lower_ascii_digit. Qed.

Lemma lower_ascii_upper b :
  Str.lower_ascii b = b -> Str.lower_ascii (Str.upper_ascii b) = b.
Proof. destruct b as [[] [] [] [] [] [] [] []]; vm_compute; congruence. Qed.

Lemma ascii_eqb_true a b : Ascii.eqb a b = true -> a = b.
Proof. apply Ascii.eqb_eq. Qed.

(** A recasing of a lower-case word lowers back to the word. *)
Lemma recased_lower k : forall s,
  Str.lower k = k -> Str.recased k s = true -> Str.lower s = k.
Proof.
  induction k as [|b k IH]; intros [|a s]; simpl; try done.
  intros Hk [Hab Hs]%andb_true_iff. simplify_eq.
  f_equal; [|by apply IH].
  apply orb_true_iff in Hab as [->%ascii_eqb_true | ->%ascii_eqb_true]; [done|].
  by apply lower_ascii_upper.
Qed.

Lemma space_not_digit c : Str.is_space c = true -> Str.is_digit c = false.
Proof. destruct c as [[] [] [] [] [] [] [] []]; vm_compute; congruence. Qed.

Lemma digit_not_space c : Str.is_digit c = true -> Str.is_space c = false.
Proof. destruct c as [[] [] [] [] [] [] [] []]; vm_compute; congruence. Qed.

(** [int] computes the positional value. *)
Lemma int_acc_decimal s : forall acc,
  Str.all Str.is_digit s = true ->
  Str.int_acc acc s = Some (acc * 10 ^ Z.of_nat (String.length s) + Str.decimal s).
Proof.
  induction s as [|c s IH]; intros acc; simpl.
  - intros _. f_equal. lia.
  - intros [Hc Hs]%andb_true_iff. rewrite Hc, (IH _ Hs). f_equal.
    rewrite Nat2Z.inj_succ, Z.pow_succ_r by lia. lia.
Qed.

Lemma int_decimal s :
  s <> "" -> Str.all Str.is_digit s = true -> Str.int s = Some (Str.decimal s).
Proof.
  intros Hne Hd. destruct s as [|c s]; [done|].
  unfold Str.int. rewrite (int_acc_decimal _ 0 Hd). f_equal.
Qed.

End StringFacts.

(** ** The matcher *)

Section RegexFacts.
Import Re.

Local Open Scope nat_scope.
Implicit Types (k : cont) (s rest : string) (cs v : spans) (pos n : nat).

Lemma star_loop_unfold body k n pos s cs :
  star_loop body k n pos s cs =
  match body (fun pos' s' cs' =>
                match n with
                | O => None
                | S n' =>
                    if (String.length s' <? String.length s)%nat
                    then star_loop body k n' pos' s' cs'
                    else None
                end) pos s cs with
  | Some m => Some m
  | None => k pos s cs
  end.
Proof. by destruct n. Qed.

Lemma search_from_unfold r pos s :
  search_from r pos s =
  match rmatch r accept pos s ∅ with
  | Some cs => Some cs
  | None =>
      match s with
      | EmptyString => None
      | String _ s' => search_from r (S pos) s'
      end
  end.
Proof. by destruct s. Qed.

Lemma rmatch_class_cons p k pos c s cs :
  rmatch (Class p) k pos (String c s) cs = if p c then k (S pos) s cs else None.
Proof. done. Qed.

Lemma rmatch_class_empty p k pos cs : rmatch (Class p) k pos "" cs = None.
Proof. done. Qed.

(** *** Sufficient conditions for a match *)

Lemma match_cat r1 r2 k pos s cs v :
  rmatch r1 (rmatch r2 k) pos s cs = Some v ->
  rmatch (Cat r1 r2) k pos s cs = Some v.
Proof. done. Qed.

Lemma match_bol k s cs v : k 0%nat s cs = Some v -> rmatch Bol k 0 s cs = Some v.
Proof. done. Qed.

Lemma match_eol_end k pos cs v :
  k pos "" cs = Some v -> rmatch Eol k pos "" cs = Some v.
Proof. done. Qed.

Lemma match_class p c k pos rest cs v :
  p c = true -> k (S pos) rest cs = Some v ->
  rmatch (Class p) k pos (String c rest) cs = Some v.
Proof. intros Hc Hk. simpl. by rewrite Hc. Qed.

Lemma match_chr c k pos rest cs v :
  k (S pos) rest cs = Some v ->
  rmatch (Chr c) k pos (String c "" +:+ rest) cs = Some v.
Proof. apply match_class, Ascii.eqb_refl. Qed.

Lemma match_lit w : forall k pos rest cs v,
  k (pos + String.length w)%nat rest cs = Some v ->
  rmatch (Lit w) k pos (w +:+ rest) cs = Some v.
Proof.
  induction w as [|c w IH]; intros k pos rest cs v Hk.
  - simpl in *. by rewrite Nat.add_0_r in Hk.
  - rewrite app_cons. simpl Lit. apply match_cat, match_class; [apply Ascii.eqb_refl|].
    apply IH. simpl in Hk. by rewrite Nat.add_succ_r in Hk.
Qed.

Lemma match_opt_taken r k pos s cs v :
  rmatch r k pos s cs = Some v -> rmatch (Opt r) k pos s cs = Some v.
Proof. intros H. simpl. by rewrite H. Qed.

Lemma match_opt_skipped r k pos s cs v :
  rmatch r k pos s cs = None -> k pos s cs = Some v ->
  rmatch (Opt r) k pos s cs = Some v.
Proof. intros H Hk. simpl. by rewrite H. Qed.

Lemma match_group i r k pos s cs v :
  rmatch r (fun pos' s' cs' => k pos' s' (<[i := (pos, pos')]> cs')) pos s cs = Some v ->
  rmatch (Group i r) k pos s cs = Some v.
Proof. done. Qed.

(** A greedy loop over a class takes the whole run when the continuation
    accepts what follows it. *)
Lemma star_loop_class_run p k v ws : forall n pos rest cs,
  Str.all p ws = true -> stops p rest ->
  (String.length (ws +:+ rest) <= n)%nat ->
  k (pos + String.length ws)%nat rest cs = Some v ->
  star_loop (rmatch (Class p)) k n pos (ws +:+ rest) cs = Some v.
Proof.
  induction ws as [|c ws IH]; intros n pos rest cs Hall Hstop Hn Hk.
  - rewrite star_loop_unfold, app_empty_l. simpl in Hk. rewrite Nat.add_0_r in Hk.
    destruct rest as [|c rest]; [done|].
    rewrite rmatch_class_cons. simpl in Hstop. by rewrite Hstop.
  - simpl in Hall. apply andb_true_iff in Hall as [Hc Hall].
    rewrite star_loop_unfold, app_cons, rmatch_class_cons, Hc.
    rewrite app_cons in Hn. simpl in Hn.
    destruct n as [|n]; [lia|].
    replace (String.length (ws +:+ rest) <? String.length (String c (ws +:+ rest)))
      with true by (symmetry; apply Nat.ltb_lt; simpl; lia).
    rewrite (IH n (S pos) rest cs); [done|done|done|lia|].
    simpl in Hk. by rewrite Nat.add_succ_r in Hk.
Qed.

Lemma match_star_class p k pos ws rest cs v :
  Str.all p ws = true -> stops p rest ->
  k (pos + String.length ws)%nat rest cs = Some v ->
  rmatch (Star (Class p)) k pos (ws +:+ rest) cs = Some v.
Proof. intros. by apply star_loop_class_run. Qed.

(** *** Necessary conditions for a match *)

Lemma class_inv p k pos s cs v :
  rmatch (Class p) k pos s cs = Some v ->
  exists c rest, s = String c rest /\ p c = true /\ k (S pos) rest cs = Some v.
Proof.
  destruct s as [|c rest]; simpl; [done|].
  destruct (p c) eqn:Hc; [|done]. eauto.
Qed.

Lemma chr_inv c k pos s cs v :
  rmatch (Chr c) k pos s cs = Some v ->
  exists rest, s = String c "" +:+ rest /\ k (S pos) rest cs = Some v.
Proof.
  intros (c' & rest & -> & Hc & Hk)%class_inv.
  apply Ascii.eqb_eq in Hc as <-. eauto.
Qed.

Lemma lit_inv w : forall k pos s cs v,
  rmatch (Lit w) k pos s cs = Some v ->
  exists rest, s = w +:+ rest /\ k (pos + String.length w)%nat rest cs = Some v.
Proof.
  induction w as [|c w IH]; intros k pos s cs v H.
  - exists s. simpl in *. by rewrite Nat.add_0_r.
  - simpl Lit in H. change (rmatch (Chr c) (rmatch (Lit w) k) pos s cs = Some v) in H.
    apply chr_inv in H as (rest & -> & H). apply IH in H as (rest' & -> & H).
    exists rest'. split; [done|]. simpl. by rewrite Nat.add_succ_r.
Qed.

Lemma star_loop_class_inv p k v n : forall pos s cs,
  star_loop (rmatch (Class p)) k n pos s cs = Some v ->
  exists ws rest,
    s = ws +:+ rest /\ Str.all p ws = true /\
    k (pos + String.length ws) rest cs = Some v.
Proof.
  assert (Hstay : forall pos s cs, k pos s cs = Some v ->
    exists ws rest, s = ws +:+ rest /\ Str.all p ws = true /\
                    k (pos + String.length ws) rest cs = Some v).
  { intros pos s cs H. exists "", s. by rewrite Nat.add_0_r. }
  induction n as [|n IH]; intros pos s cs; rewrite star_loop_unfold;
    (destruct s as [|c s];
     [rewrite rmatch_class_empty; apply Hstay|rewrite rmatch_class_cons]);
    (destruct (p c) eqn:Hc; [|apply Hstay]); [apply Hstay|].
  destruct (String.length s <? String.length (String c s)); [|apply Hstay].
  destruct (star_loop (rmatch (Class p)) k n (S pos) s cs) as [m|] eqn:Hm;
    [|apply Hstay].
  intros [= ->]. apply IH in Hm as (ws & rest & -> & Hall & Hk).
  exists (String c ws), rest. rewrite app_cons. simpl.
  rewrite Hc, Hall, Nat.add_succ_r. done.
Qed.

Lemma star_class_inv p k pos s cs v :
  rmatch (Star (Class p)) k pos s cs = Some v ->
  exists ws rest,
    s = ws +:+ rest /\ Str.all p ws = true /\
    k (pos + String.length ws)%nat rest cs = Some v.
Proof. apply star_loop_class_inv. Qed.

Lemma opt_inv r k pos s cs v :
  rmatch (Opt r) k pos s cs = Some v ->
  rmatch r k pos s cs = Some v \/ k pos s cs = Some v.
Proof. simpl. destruct (rmatch r k pos s cs); [intros [= ->]|]; auto. Qed.

Lemma eol_inv k pos s cs v :
  rmatch Eol k pos s cs = Some v ->
  Str.all Str.is_space s = true /\ k pos s cs = Some v.
Proof.
  destruct s as [|c [|c' s]]; simpl; [done| |done].
  destruct (Ascii.eqb c "010") eqn:Hc; [|done].
  apply Ascii.eqb_eq in Hc as ->. done.
Qed.

(** An anchored pattern only matches at offset 0. *)
Lemma search_from_anchored r s : forall pos,
  search_from (Cat Bol r) (S pos) s = None.
Proof.
  induction s as [|c s IH]; intros pos; rewrite search_from_unfold; [done|].
  simpl rmatch. apply IH.
Qed.

Lemma search_anchored r s :
  search_from (Cat Bol r) 0 s = rmatch (Cat Bol r) accept 0 s ∅.
Proof.
  rewrite search_from_unfold.
  destruct (rmatch (Cat Bol r) accept 0 s ∅); [done|].
  destruct s; [done|]. apply search_from_anchored.
Qed.

End RegexFacts.

(** ** The pattern of the lookup *)

Section PatternFacts.
Import Re.
Local Open Scope nat_scope.

Lemma cat_inv r1 r2 k pos s cs v :
  rmatch (Cat r1 r2) k pos s cs = Some v ->
  rmatch r1 (rmatch r2 k) pos s cs = Some v.
Proof. done. Qed.

Lemma bol_inv k s cs v : rmatch Bol k 0 s cs = Some v -> k 0 s cs = Some v.
Proof. done. Qed.

Lemma group_inv i r k pos s cs v :
  rmatch (Group i r) k pos s cs = Some v ->
  rmatch r (fun pos' s' cs' => k pos' s' (<[i := (pos, pos')]> cs')) pos s cs = Some v.
Proof. done. Qed.

Lemma stops_digit_after ws r :
  Str.all Str.is_space ws = true -> stops Str.is_digit (ws +:+ ")" +:+ r).
Proof.
  destruct ws as [|c ws]; [done|]. simpl.
  intros [Hc _]%andb_true_iff. by apply space_not_digit.
Qed.

Lemma char_type_re_eq :
  char_type_re =
  Cat Bol (Cat (Star (Class Str.is_space)) (Cat (Opt (Lit "var")) char_type_tail)).
Proof. reflexivity. Qed.

Lemma tail_matches pos ws2 ws3 d ds ws4 ws5 :
  Str.all Str.is_space ws2 = true -> Str.all Str.is_space ws3 = true ->
  Str.all Str.is_space ws4 = true -> Str.all Str.is_space ws5 = true ->
  Str.is_digit d = true -> Str.all Str.is_digit ds = true ->
  exists b e,
    rmatch char_type_tail accept pos
      ("char" +:+ ws2 +:+ "(" +:+ ws3 +:+ String d ds +:+ ws4 +:+ ")" +:+ ws5) ∅
    = Some (<[1 := (b, e)]> ∅)
    /\ b = pos + String.length ("char" +:+ ws2 +:+ "(" +:+ ws3)
    /\ e - b = String.length (String d ds).
Proof.
  intros H2 H3 H4 H5 Hd Hds. eexists _, _. split; [|split].
  - rewrite <- (app_empty_r ws5). unfold char_type_tail. cbn [Seq].
    apply match_cat, match_lit.
    apply match_cat, match_star_class; [done|done|].
    apply match_cat, match_chr.
    apply match_cat, match_star_class;
      [done|rewrite app_cons; by apply digit_not_space|].
    apply match_cat, match_group. unfold Plus.
    rewrite app_cons. apply match_cat, match_class; [done|].
    apply match_star_class; [done|by apply stops_digit_after|]. cbv beta.
    apply match_cat, match_star_class; [done|done|].
    apply match_cat, match_chr.
    apply match_cat, match_star_class; [done|done|].
    apply match_cat, match_eol_end. reflexivity.
  - rewrite !length_app. simpl. lia.
  - simpl. lia.
Qed.

Lemma tail_inv pos s cs v :
  rmatch char_type_tail accept pos s cs = Some v ->
  exists ws2 ws3 digits ws4 ws5,
    s = "char" +:+ ws2 +:+ "(" +:+ ws3 +:+ digits +:+ ws4 +:+ ")" +:+ ws5
    /\ Str.all Str.is_space ws2 = true
    /\ Str.all Str.is_space ws3 = true
    /\ Str.all Str.is_space ws4 = true
    /\ Str.all Str.is_space ws5 = true
    /\ digits <> ""
    /\ Str.all Str.is_digit digits = true.
Proof.
  unfold char_type_tail. cbn [Seq]. intros H.
  apply cat_inv, lit_inv in H as (r & -> & H).
  apply cat_inv, star_class_inv in H as (ws2 & r' & -> & H2 & H).
  apply cat_inv, chr_inv in H as (r & -> & H).
  apply cat_inv, star_class_inv in H as (ws3 & r' & -> & H3 & H).
  apply cat_inv, group_inv in H. unfold Plus in H.
  apply cat_inv, class_inv in H as (d & r & -> & Hd & H).
  apply star_class_inv in H as (ds & r' & -> & Hds & H). cbv beta in H.
  apply cat_inv, star_class_inv in H as (ws4 & r & -> & H4 & H).
  apply cat_inv, chr_inv in H as (r' & -> & H).
  apply cat_inv, star_class_inv in H as (ws5 & r & -> & H5 & H).
  apply cat_inv, eol_inv in H as [Hr _].
  exists ws2, ws3, (String d ds), ws4, (ws5 +:+ r).
  rewrite all_app, H5, Hr. simpl. rewrite Hd, Hds.
  repeat split; try done.
Qed.

(** The pattern matches a lower-cased string exactly when it has the form
    [char_type_form], and group 1 is then the digits. *)
Lemma char_type_matches s digits :
  char_type_form s digits ->
  exists m, search char_type_re s = Some m /\ group m 1 = Some digits.
Proof.
  intros (ws1 & var & ws2 & ws3 & ws4 & ws5 & -> & Hvar & H1 & H2 & H3 & H4 & H5
          & Hne & Hd).
  destruct digits as [|d ds]; [done|]. simpl in Hd.
  apply andb_true_iff in Hd as [Hd Hds].
  destruct (tail_matches (0 + String.length ws1 + String.length var)
              ws2 ws3 d ds ws4 ws5 H2 H3 H4 H5 Hd Hds) as (b & e & Hm & Hb & He).
  set (subj := ws1 +:+ var +:+ "char" +:+ ws2 +:+ "(" +:+ ws3 +:+ String d ds
                   +:+ ws4 +:+ ")" +:+ ws5).
  assert (Hs : rmatch char_type_re accept 0 subj ∅ = Some (<[1 := (b, e)]> ∅)).
  { rewrite char_type_re_eq. unfold subj.
    apply match_cat, match_bol.
    apply match_cat, match_star_class;
      [done|by destruct Hvar as [-> | ->]|].
    destruct Hvar as [-> | ->].
    - rewrite app_empty_l. apply match_cat, match_opt_skipped; [done|].
      simpl String.length in Hm. by rewrite Nat.add_0_r in Hm.
    - apply match_cat, match_opt_taken, match_lit. exact Hm. }
  exists {| subject := subj; groups := <[1 := (b, e)]> ∅ |}. split.
  - unfold search. rewrite char_type_re_eq, search_anchored, <- char_type_re_eq.
    by rewrite Hs.
  - unfold group. cbn [groups subject]. rewrite lookup_insert_eq. f_equal.
    unfold subj.
    replace (ws1 +:+ var +:+ "char" +:+ ws2 +:+ "(" +:+ ws3 +:+ String d ds
                 +:+ ws4 +:+ ")" +:+ ws5)
      with ((ws1 +:+ var +:+ "char" +:+ ws2 +:+ "(" +:+ ws3) +:+ String d ds
                 +:+ ws4 +:+ ")" +:+ ws5)
      by (by rewrite !app_assoc).
    apply substring_middle; [|done].
    rewrite Hb, !length_app. simpl. lia.
Qed.

Lemma char_type_inv s m :
  search char_type_re s = Some m -> exists digits, char_type_form s digits.
Proof.
  unfold search. rewrite char_type_re_eq, search_anchored.
  destruct (rmatch _ accept 0 s ∅) as [cs|] eqn:H; [|done]. intros _.
  apply cat_inv, bol_inv in H.
  apply cat_inv, star_class_inv in H as (ws1 & r & -> & H1 & H).
  apply cat_inv, opt_inv in H as [H|H].
  - apply lit_inv in H as (r' & -> & H).
    apply tail_inv in H as (ws2 & ws3 & digits & ws4 & ws5 & -> & Hrest).
    exists digits, ws1, "var", ws2, ws3, ws4, ws5. intuition.
  - apply tail_inv in H as (ws2 & ws3 & digits & ws4 & ws5 & -> & Hrest).
    exists digits, ws1, "", ws2, ws3, ws4, ws5. intuition.
Qed.

Lemma char_type_no_match s :
  (~ exists digits, char_type_form s digits) -> search char_type_re s = None.
Proof.
  intros Hno. destruct (search char_type_re s) as [m|] eqn:H; [|done].
  destruct Hno. by eapply char_type_inv.
Qed.

End PatternFacts.

(** ** The fixed table *)

Section TableFacts.

Lemma entries_plain : Forall (fun kv => Str.plain kv.1 = true) entries.
Proof. repeat constructor. Qed.

Lemma lookup_entry k v : base_data_types_reverse !! k = Some v -> (k, v) ∈ entries.
Proof. apply elem_of_list_to_map_2. Qed.

Lemma lookup_plain k v : base_data_types_reverse !! k = Some v -> Str.plain k = true.
Proof.
  intros H%lookup_entry.
  exact (proj1 (Forall_forall _ _) entries_plain (k, v) H).
Qed.

Lemma not_plain_lookup k : Str.plain k = false -> base_data_types_reverse !! k = None.
Proof.
  intros Hk. destruct (base_data_types_reverse !! k) as [v|] eqn:H; [|done].
  apply lookup_plain in H. congruence.
Qed.

Lemma plain_inv k :
  Str.plain k = true ->
  Str.lower k = k /\ Str.mem "(" k = false
  /\ Str.starts_with_space k = false /\ Str.ends_with_space k = false.
Proof.
  unfold Str.plain. rewrite !andb_true_iff, !negb_true_iff, String.eqb_eq. tauto.
Qed.

Lemma mem_paren_not_plain k : Str.mem "(" k = true -> Str.plain k = false.
Proof.
  intros H. destruct (Str.plain k) eqn:Hp; [|done].
  apply plain_inv in Hp. intuition congruence.
Qed.

Lemma spaces_no_paren ws : Str.all Str.is_space ws = true -> Str.mem "(" ws = false.
Proof.
  induction ws as [|c ws IH]; [done|]. simpl.
  intros [Hc Hws]%andb_true_iff. rewrite (IH Hws), orb_false_r.
  destruct (Ascii.eqb "(" c) eqn:E; [|done].
  apply Ascii.eqb_eq in E as <-. done.
Qed.

Lemma starts_with_space_app pre x :
  pre <> "" -> Str.all Str.is_space pre = true ->
  Str.starts_with_space (pre +:+ x) = true.
Proof.
  destruct pre as [|c pre]; [done|]. intros _. simpl.
  by intros [Hc _]%andb_true_iff.
Qed.

Lemma ends_with_space_spaces post :
  post <> "" -> Str.all Str.is_space post = true ->
  Str.ends_with_space post = true.
Proof.
  induction post as [|c post IH]; [done|]. intros _. simpl.
  intros [Hc Hpost]%andb_true_iff. destruct post as [|c' post]; [done|].
  by apply IH.
Qed.

Lemma ends_with_space_app x post :
  post <> "" -> Str.all Str.is_space post = true ->
  Str.ends_with_space (x +:+ post) = true.
Proof.
  intros Hne Hpost. induction x as [|c x IH].
  - by apply ends_with_space_spaces.
  - rewrite app_cons. simpl. rewrite IH.
    destruct (x +:+ post) eqn:E; [|done].
    destruct x; [|done]. by rewrite app_empty_l in E.
Qed.

End TableFacts.

(** ** FlexibleFieldLookupDict.__getitem__ *)

(** C1. A key that spells "char(N)" or "varchar(N)", the word in any letter
    case, with white space in front, around each parenthesis and at the
    end, N a run of decimal digits, resolves to
    ('CharField', {'max_length': N}), N being the number the digits
    denote. *)
Theorem getitem_char_type (ws1 word ws2 ws3 digits ws4 ws5 : string) :
  Str.recased "char" word = true \/ Str.recased "varchar" word = true ->
  Str.all Str.is_space ws1 = true ->
  Str.all Str.is_space ws2 = true ->
  Str.all Str.is_space ws3 = true ->
  Str.all Str.is_space ws4 = true ->
  Str.all Str.is_space ws5 = true ->
  digits <> "" ->
  Str.all Str.is_digit digits = true ->
  __getitem__ (ws1 +:+ word +:+ ws2 +:+ "(" +:+ ws3 +:+ digits +:+ ws4 +:+ ")" +:+ ws5)
  = Ok (FieldWithParams "CharField" {[ "max_length" := Str.decimal digits ]}).
Proof.
  intros Hword H1 H2 H3 H4 H5 Hne Hd. unfold __getitem__. cbv zeta.
  rewrite !lower_app, (lower_spaces ws1), (lower_spaces ws2), (lower_spaces ws3),
    (lower_spaces ws4), (lower_spaces ws5), (lower_digits digits) by done.
  change (Str.lower "(") with "(". change (Str.lower ")") with ")".
  set (key := ws1 +:+ _).
  assert (Hform : char_type_form key digits).
  { destruct Hword as [Hw|Hw]; apply recased_lower in Hw; try done;
      unfold key; rewrite Hw.
    - exists ws1, "", ws2, ws3, ws4, ws5. rewrite app_empty_l. intuition.
    - exists ws1, "var", ws2, ws3, ws4, ws5.
      change "varchar" with ("var" +:+ "char"). rewrite app_assoc. intuition. }
  rewrite not_plain_lookup.
  - apply char_type_matches in Hform as (m & -> & ->).
    by rewrite int_decimal.
  - apply mem_paren_not_plain. unfold key. rewrite !mem_app.
    change (Str.mem "(" "(") with true. by rewrite !orb_true_r.
Qed.

Lemma getitem_char_type_witness :
  __getitem__ "VARCHAR(30)"
  = Ok (FieldWithParams "CharField" {[ "max_length" := 30 ]}).
Proof.
  apply (getitem_char_type "" "VARCHAR" "" "" "30" "" "");
    [right; reflexivity|reflexivity..|discriminate|reflexivity].
Defined.

(** C2. A key of the fixed table, written in any letter case, resolves to
    the field-type name the table gives it. *)
Theorem getitem_table_key (k v s : string) :
  base_data_types_reverse !! k = Some v ->
  Str.recased k s = true ->
  __getitem__ s = Ok (FieldName v).
Proof.
  intros Hk Hs. unfold __getitem__. cbv zeta.
  destruct (plain_inv k (lookup_plain k v Hk)) as [Hlow _].
  by rewrite (recased_lower k s Hlow Hs), Hk.
Qed.

Lemma getitem_table_key_witness :
  __getitem__ "integer unsigned" = Ok (FieldName "PositiveIntegerField").
Proof.
  apply (getitem_table_key "integer unsigned" "PositiveIntegerField" "integer unsigned");
    vm_compute; reflexivity.
Defined.

Lemma getitem_miss (key : string) :
  base_data_types_reverse !! Str.lower key = None ->
  (~ exists digits, char_type_form (Str.lower key) digits) ->
  __getitem__ key = Raise KeyError.
Proof.
  intros Htable Hform. unfold __getitem__. cbv zeta.
  by rewrite Htable, char_type_no_match.
Qed.

(** C3. A key whose lower-case form is not in the fixed table and has not
    the form "char(N)" / "varchar(N)" raises KeyError. *)
Theorem getitem_unknown (key : string) :
  base_data_types_reverse !! Str.lower key = None ->
  (~ exists digits, char_type_form (Str.lower key) digits) ->
  __getitem__ key = Raise KeyError.
Proof.
  apply getitem_miss.
Qed.

Lemma getitem_unknown_witness : __getitem__ "blob" = Raise KeyError.
Proof.
  apply (getitem_unknown "blob").
  - vm_compute. reflexivity.
  - intros [digits Hform]. apply char_type_matches in Hform as (m & Hm & _).
    vm_compute in Hm. discriminate Hm.
Defined.

(** C10. A key of the fixed table other than "char" resolves, but with
    white space added in front of it or after it the lookup raises
    KeyError. *)
Theorem getitem_padded_key (k v pre post : string) :
  base_data_types_reverse !! k = Some v ->
  k <> "char" ->
  Str.all Str.is_space pre = true ->
  Str.all Str.is_space post = true ->
  pre <> "" \/ post <> "" ->
  __getitem__ k = Ok (FieldName v)
  /\ __getitem__ (pre +:+ k +:+ post) = Raise KeyError.
Proof.
  intros Hk _ Hpre Hpost Hpad.
  destruct (plain_inv k (lookup_plain k v Hk)) as (Hlow & Hparen & _ & _).
  split.
  - unfold __getitem__. cbv zeta. by rewrite Hlow, Hk.
  - apply getitem_miss.
    + rewrite !lower_app, (lower_spaces pre), (lower_spaces post), Hlow by done.
      apply not_plain_lookup.
      destruct (Str.plain (pre +:+ k +:+ post)) eqn:Hp; [|done].
      apply plain_inv in Hp as (_ & _ & Hs & He).
      destruct Hpad as [Hne|Hne].
      * by rewrite starts_with_space_app in Hs.
      * rewrite <- app_assoc in He. by rewrite ends_with_space_app in He.
    + rewrite !lower_app, (lower_spaces pre), (lower_spaces post), Hlow by done.
      intros (digits & ws1 & var & ws2 & ws3 & ws4 & ws5 & Heq & _).
      apply (f_equal (Str.mem "(")) in Heq. revert Heq.
      rewrite !mem_app, Hparen, !spaces_no_paren by done.
      change (Str.mem "(" "(") with true. rewrite !orb_true_r. done.
Qed.

Lemma getitem_padded_key_witness :
  __getitem__ "integer" = Ok (FieldName "IntegerField")
  /\ __getitem__ " integer " = Raise KeyError.
Proof.
  apply (getitem_padded_key "integer" "IntegerField" " " " ");
    [vm_compute; reflexivity|discriminate|reflexivity|reflexivity|left; discriminate].
Defined.

(** ** DatabaseIntrospection *)

Import DatabaseIntrospection.

Section TableList.

Lemma get_table_list_eq c :
  get_table_list c
  = (Ok (Sqlite.select_table_names (connection c)), log Sqlite.SelectTableNames c).
Proof.
  unfold get_table_list, bind, fetch_table_names, ret.
  do 2 f_equal. apply (list_fmap_id (Sqlite.select_table_names (connection c))).
Qed.

Lemma select_table_names_elem db n :
  n ∈ Sqlite.select_table_names db <->
  exists r, r ∈ Sqlite.sqlite_master db /\ Sqlite.m_name r = n
            /\ Sqlite.m_type r = "table" /\ n <> "sqlite_sequence".
Proof.
  unfold Sqlite.select_table_names.
  rewrite merge_sort_Permutation, list_elem_of_fmap.
  split.
  - intros (r & -> & [[Ht Hn] Hr]%list_elem_of_filter). eauto.
  - intros (r & Hr & <- & Ht & Hn). exists r. split; [done|].
    apply list_elem_of_filter. auto.
Qed.

End TableList.

(** C4. The table listing succeeds with the names of the catalog entries of
    type 'table' other than sqlite_sequence (each as often as the catalog
    has it), in ascending bytewise lexicographic order. *)
Theorem get_table_list_sorted (c : cursor) :
  exists names,
    get_table_list c = (Ok names, log Sqlite.SelectTableNames c)
    /\ StronglySorted String.le names
    /\ names ≡ₚ (Sqlite.m_name <$>
                   filter (fun r => Sqlite.m_type r = "table"
                                    /\ Sqlite.m_name r <> "sqlite_sequence")
                          (Sqlite.sqlite_master (connection c)))
    /\ ("sqlite_sequence" ∉ names)
    /\ forall n, n ∈ names <->
         exists r, r ∈ Sqlite.sqlite_master (connection c) /\ Sqlite.m_name r = n
                   /\ Sqlite.m_type r = "table" /\ n <> "sqlite_sequence".
Proof.
  exists (Sqlite.select_table_names (connection c)).
  split; [apply get_table_list_eq|].
  split; [apply StronglySorted_merge_sort; apply _|].
  split; [apply merge_sort_Permutation|].
  split; [|apply select_table_names_elem].
  intros (r & _ & _ & _ & Hn)%select_table_names_elem. done.
Qed.

Example get_table_list_example :
  get_table_list (example_cursor (example_db [] (fun _ => [])))
  = (Ok ["T"; "t"],
     log Sqlite.SelectTableNames (example_cursor (example_db [] (fun _ => [])))).
Proof. vm_compute. reflexivity. Qed.

Section TableDescription.
Variable quote_name : string -> string.

(** The tuple built for one row of PRAGMA table_info. *)
Lemma get_table_description_eq table_name c :
  get_table_description quote_name table_name c
  = (Ok ((fun col =>
            [ PyStr (Sqlite.c_name col); PyStr (Sqlite.c_type col);
              PyNone; PyNone; PyNone; PyNone;
              PyBool (Sqlite.c_notnull col =? 0) ])
           <$> Sqlite.table_info (connection c) (quote_name table_name)),
     log (Sqlite.PragmaTableInfo (quote_name table_name)) c).
Proof.
  unfold get_table_description, _table_info, bind, fetch_table_info, ret.
  do 2 f_equal. rewrite <- list_fmap_compose. apply list_fmap_ext.
  intros _ col _. simpl. unfold truthy. by rewrite negb_involutive.
Qed.

Lemma description_tuple table_name c tuples c' tuple :
  get_table_description quote_name table_name c = (Ok tuples, c') ->
  tuple ∈ tuples ->
  exists n t b, tuple = [PyStr n; PyStr t; PyNone; PyNone; PyNone; PyNone; PyBool b].
Proof.
  rewrite get_table_description_eq. intros [= <- _].
  intros (col & -> & _)%list_elem_of_fmap. eauto.
Qed.

End TableDescription.

Lemma always_null_2_to_5 i : i ∈ [2; 3; 4; 5]%nat -> always_null i.
Proof.
  intros Hi quote_name table_name c tuples c' Hd tuple Ht.
  destruct (description_tuple _ _ _ _ _ _ Hd Ht) as (n & t & b & ->).
  repeat (apply elem_of_cons in Hi as [-> | Hi]; [done|]).
  by apply elem_of_nil in Hi.
Qed.

(** C5, as stated, fails. The description of the example table "t" has None
    at four positions of each tuple, and in general no set of exactly three
    positions is the set of the positions that are always null
    placeholders, because the four positions 2, 3, 4 and 5 all are. *)
Lemma description_three_nulls_counterexample :
  (get_table_description example_quote "t"
     (example_cursor (example_db [] (fun _ => [])))).1
  = Ok [ [PyStr "id"; PyStr "integer"; PyNone; PyNone; PyNone; PyNone; PyBool false];
         [PyStr "a"; PyStr "varchar(30)"; PyNone; PyNone; PyNone; PyNone; PyBool true];
         [PyStr "b"; PyStr "text"; PyNone; PyNone; PyNone; PyNone; PyBool true] ]
  /\ ~ exists positions : list nat,
        NoDup positions /\ length positions = 3%nat
        /\ forall i, i ∈ positions <-> always_null i.
Proof.
  split; [vm_compute; reflexivity|].
  intros (positions & Hnd & Hlen & Hpos).
  assert (Hsub : [2; 3; 4; 5]%nat ⊆ positions).
  { intros i Hi. by apply Hpos, always_null_2_to_5. }
  assert (Hms : [2; 3; 4; 5]%nat ⊆+ positions).
  { apply NoDup_submseteq; [|exact Hsub].
    apply NoDup_ListNoDup.
    repeat (constructor; [simpl; intros Hin; decompose [or] Hin; lia|]).
    constructor. }
  apply submseteq_length in Hms. simpl in Hms. lia.
Qed.

(** C5, amended. The description succeeds with one 7-tuple per row of
    PRAGMA table_info, in the order of the rows,
    (name, type, None, None, None, None, null_ok) with null_ok true exactly
    when notnull is 0; positions 2 to 5 (four of them) are None and no other
    position is. *)
Theorem get_table_description_shape (quote_name : string -> string)
    (table_name : string) (c : cursor) :
  exists tuples,
    get_table_description quote_name table_name c
      = (Ok tuples, log (Sqlite.PragmaTableInfo (quote_name table_name)) c)
    /\ length tuples
       = length (Sqlite.table_info (connection c) (quote_name table_name))
    /\ (forall (i : nat) col,
          Sqlite.table_info (connection c) (quote_name table_name) !! i = Some col ->
          tuples !! i
          = Some [ PyStr (Sqlite.c_name col); PyStr (Sqlite.c_type col);
                   PyNone; PyNone; PyNone; PyNone;
                   PyBool (Sqlite.c_notnull col =? 0) ])
    /\ (forall tuple, tuple ∈ tuples ->
          length tuple = 7%nat
          /\ forall j : nat, tuple !! j = Some PyNone <-> j ∈ [2; 3; 4; 5]%nat).
Proof.
  eexists. split; [apply get_table_description_eq|].
  split; [by rewrite length_fmap|]. split.
  - intros i col Hi. by rewrite list_lookup_fmap, Hi.
  - intros tuple (col & -> & _)%list_elem_of_fmap. split; [done|].
    intros j. split.
    + do 7 (destruct j as [|j];
            [simpl; try discriminate; intros _; rewrite !elem_of_cons; lia|]).
      simpl. rewrite lookup_nil. discriminate.
    + intros Hj. repeat (apply elem_of_cons in Hj as [-> | Hj]; [done|]).
      by apply elem_of_nil in Hj.
Qed.

(** C8. Asking for the relations of a table raises NotImplementedError
    whatever the table and the catalog, and leaves the cursor as it was: no
    statement is executed. *)
Theorem get_relations_unsupported (table_name : string) (c : cursor) :
  get_relations table_name c = (Raise NotImplementedError, c)
  /\ executed (get_relations table_name c).2 = executed c.
Proof. split; reflexivity. Qed.

Section Indexes.
Variable quote_name : string -> string.

Let info_of (field : Sqlite.column_row) : column_info :=
  {| name := Sqlite.c_name field;
     type := Sqlite.c_type field;
     null_ok := negb (truthy (Sqlite.c_notnull field));
     pk := Sqlite.c_pk field |}.

Let pairs (rows : list Sqlite.index_row) : list (string * Z) :=
  (fun field => (Sqlite.i_name field, Sqlite.i_unique field)) <$> rows.

Lemma get_indexes_eq table_name c :
  get_indexes quote_name table_name c
  = for_each (mark_unique quote_name)
      (initial_indexes
         (info_of <$> Sqlite.table_info (connection c) (quote_name table_name)))
      (pairs (Sqlite.index_list (connection c) (quote_name table_name)))
      (log (Sqlite.PragmaIndexList (quote_name table_name))
           (log (Sqlite.PragmaTableInfo (quote_name table_name)) c)).
Proof. reflexivity. Qed.

(** The entries of the first loop. *)
Lemma foldl_insert_lookup cols n : forall m : gmap string index_flags,
  foldl (fun (ix : gmap string index_flags) info =>
           <[ name info := {| primary_key := negb (pk info =? 0);
                              unique := false |} ]> ix)
        m (info_of <$> cols) !! n
  = match column_row cols n with
    | Some r => Some {| primary_key := negb (Sqlite.c_pk r =? 0); unique := false |}
    | None => m !! n
    end.
Proof.
  unfold column_row. induction cols as [|a cols IH]; intros m; [done|].
  rewrite fmap_cons. simpl foldl. rewrite IH, filter_cons.
  destruct (decide (Sqlite.c_name a = n)) as [Ha|Ha].
  - rewrite last_cons. destruct (last _); [done|].
    simpl. by rewrite Ha, lookup_insert_eq.
  - destruct (last _); [done|]. simpl. by rewrite lookup_insert_ne.
Qed.

Lemma initial_indexes_lookup cols n :
  initial_indexes (info_of <$> cols) !! n
  = (fun r => {| primary_key := negb (Sqlite.c_pk r =? 0); unique := false |})
      <$> column_row cols n.
Proof.
  unfold initial_indexes. rewrite foldl_insert_lookup.
  by destruct (column_row cols n).
Qed.

Lemma column_row_is_Some cols n :
  is_Some (column_row cols n) <-> n ∈ Sqlite.c_name <$> cols.
Proof.
  unfold column_row. rewrite list_elem_of_fmap. split.
  - intros [r Hr]. apply last_Some_elem_of in Hr.
    apply list_elem_of_filter in Hr as [<- Hr]. eauto.
  - intros (r & -> & Hr).
    assert (Hf : r ∈ filter (fun r' => Sqlite.c_name r' = Sqlite.c_name r) cols)
      by (by apply list_elem_of_filter).
    destruct (last _) eqn:E; [eauto|].
    apply last_None in E. rewrite E in Hf. by apply elem_of_nil in Hf.
Qed.

Lemma column_row_Some cols n r :
  column_row cols n = Some r -> r ∈ cols /\ Sqlite.c_name r = n.
Proof.
  unfold column_row. intros Hr%last_Some_elem_of.
  by apply list_elem_of_filter in Hr as [? ?].
Qed.

Section Loop.
Variable db : Sqlite.database.

Lemma marked_nil m : marked quote_name db [] m m.
Proof.
  intros n. destruct (m !! n) as [e|]; [|done].
  exists e. repeat split; auto.
  intros [H|(ix & Hin & _)]; [done|]. by apply elem_of_nil in Hin.
Qed.

Lemma marked_skip ix rows m m' :
  (forall n, ~ unique_on quote_name db ix n) ->
  marked quote_name db rows m m' -> marked quote_name db (ix :: rows) m m'.
Proof.
  intros Hno Hm n. specialize (Hm n). destruct (m !! n) as [e|]; [|done].
  destruct Hm as (e' & He' & Hpk & Hu). exists e'. repeat split; auto.
  - intros H. apply Hu in H as [H|(ix' & Hin & Hon)]; [by left|].
    right. exists ix'. split; [by right|done].
  - intros [H|(ix' & Hin & Hon)]; apply Hu; [by left|].
    apply elem_of_cons in Hin as [->|Hin]; [by destruct (Hno n)|].
    right. eauto.
Qed.

Lemma marked_hit ix rows m m' n0 d :
  m !! n0 = Some d ->
  (forall n, unique_on quote_name db ix n <-> n = n0) ->
  marked quote_name db rows
    (<[ n0 := {| primary_key := primary_key d; unique := true |} ]> m) m' ->
  marked quote_name db (ix :: rows) m m'.
Proof.
  intros Hd Hon Hm n. specialize (Hm n).
  destruct (decide (n = n0)) as [->|Hne].
  - rewrite lookup_insert_eq in Hm. rewrite Hd.
    destruct Hm as (e' & He' & Hpk & Hu). exists e'. repeat split; auto.
    intros _. right. exists ix. split; [by left|by apply Hon].
    intros _. apply Hu. by left.
  - rewrite lookup_insert_ne in Hm by done.
    destruct (m !! n) as [e|]; [|done].
    destruct Hm as (e' & He' & Hpk & Hu). exists e'. repeat split; auto.
    + intros H. apply Hu in H as [H|(ix' & Hin & Hon')]; [by left|].
      right. exists ix'. split; [by right|done].
    + intros [H|(ix' & Hin & Hon')]; apply Hu; [by left|].
      apply elem_of_cons in Hin as [->|Hin]; [by apply Hon in Hon'|].
      right. eauto.
Qed.

Lemma for_each_cons {A S} (body : S -> A -> M S) st x l c :
  for_each body st (x :: l) c
  = match body st x c with
    | (Ok st', c') => for_each body st' l c'
    | (Raise e, c') => (Raise e, c')
    end.
Proof. reflexivity. Qed.

Lemma mark_unique_run m ix c :
  mark_unique quote_name m (Sqlite.i_name ix, Sqlite.i_unique ix) c
  = if truthy (Sqlite.i_unique ix) then
      let c' := log (Sqlite.PragmaIndexInfo (quote_name (Sqlite.i_name ix))) c in
      match Sqlite.index_info (connection c) (quote_name (Sqlite.i_name ix)) with
      | [col] =>
          match m !! Sqlite.ic_name col with
          | Some d =>
              (Ok (<[ Sqlite.ic_name col :=
                       {| primary_key := primary_key d; unique := true |} ]> m),
               c')
          | None => (Raise KeyError, c')
          end
      | _ => (Ok m, c')
      end
    else (Ok m, c).
Proof.
  unfold mark_unique, bind, fetch_index_info, ret, raise.
  destruct (truthy (Sqlite.i_unique ix)); [|done]. simpl.
  destruct (Sqlite.index_info _ _) as [|col [|col' rest]]; [done| |done].
  by destruct (m !! Sqlite.ic_name col).
Qed.

(** The second loop succeeds when every column it has to mark has an
    entry, and marks exactly those. *)
Lemma for_each_mark_unique rows : forall m c,
  connection c = db ->
  (forall ix n, ix ∈ rows -> unique_on quote_name db ix n -> is_Some (m !! n)) ->
  exists m' c',
    for_each (mark_unique quote_name) m (pairs rows) c = (Ok m', c')
    /\ connection c' = db
    /\ marked quote_name db rows m m'.
Proof.
  induction rows as [|ix rows IH]; intros m c Hc Hdef.
  - exists m, c. split; [done|]. split; [done|]. apply marked_nil.
  - assert (Hrest : forall m1 : gmap string index_flags,
              (forall n, is_Some (m !! n) -> is_Some (m1 !! n)) ->
              forall ix' n, ix' ∈ rows -> unique_on quote_name db ix' n ->
                            is_Some (m1 !! n)).
    { intros m1 Hm1 ix' n Hin Hon. apply Hm1, (Hdef ix' n); [by right|done]. }
    unfold pairs. rewrite fmap_cons. fold (pairs rows).
    rewrite for_each_cons, mark_unique_run.
    destruct (truthy (Sqlite.i_unique ix)) eqn:Ht; cbv zeta.
    + rewrite Hc.
      assert (Hu : Sqlite.i_unique ix <> 0).
      { intros E. unfold truthy in Ht. by rewrite E in Ht. }
      destruct (Sqlite.index_info db (quote_name (Sqlite.i_name ix)))
        as [|r [|r' rest]] eqn:Hinfo.
      * destruct (IH m (log (Sqlite.PragmaIndexInfo (quote_name (Sqlite.i_name ix))) c))
          as (m' & c' & Hrun & Hc' & Hm'); [done|by apply Hrest|].
        exists m', c'. split; [done|]. split; [done|].
        apply marked_skip; [|done].
        intros n (_ & r & Hr & _). congruence.
      * destruct (Hdef ix (Sqlite.ic_name r)) as [d Hd]; [by left| |].
        { split; [done|]. eauto. }
        rewrite Hd.
        destruct (IH (<[ Sqlite.ic_name r :=
                          {| primary_key := primary_key d; unique := true |} ]> m)
                     (log (Sqlite.PragmaIndexInfo (quote_name (Sqlite.i_name ix))) c))
          as (m' & c' & Hrun & Hc' & Hm'); [done| |].
        { apply Hrest. intros n Hn.
          destruct (decide (n = Sqlite.ic_name r)) as [->|Hne].
          - by rewrite lookup_insert_eq.
          - by rewrite lookup_insert_ne. }
        exists m', c'. split; [done|]. split; [done|].
        apply (marked_hit ix rows m m' (Sqlite.ic_name r) d); [done| |done].
        intros n. split.
        -- intros (_ & r0 & Hr0 & <-). congruence.
        -- intros ->. split; [done|]. eauto.
      * destruct (IH m (log (Sqlite.PragmaIndexInfo (quote_name (Sqlite.i_name ix))) c))
          as (m' & c' & Hrun & Hc' & Hm'); [done|by apply Hrest|].
        exists m', c'. split; [done|]. split; [done|].
        apply marked_skip; [|done].
        intros n (_ & r0 & Hr0 & _). congruence.
    + destruct (IH m c) as (m' & c' & Hrun & Hc' & Hm'); [done|by apply Hrest|].
      exists m', c'. split; [done|]. split; [done|].
      apply marked_skip; [|done].
      intros n (Hu & _). unfold truthy in Ht.
      apply negb_false_iff, Z.eqb_eq in Ht. done.
Qed.

End Loop.

(** [get_indexes] as a whole: when every column that a unique
    single-column index covers is a column of the table, the result is the
    column entries with those columns marked. *)
Lemma get_indexes_spec table_name c :
  let db := connection c in
  let cols := Sqlite.table_info db (quote_name table_name) in
  let rows := Sqlite.index_list db (quote_name table_name) in
  (forall ix n, ix ∈ rows -> unique_on quote_name db ix n ->
                n ∈ Sqlite.c_name <$> cols) ->
  exists m c',
    get_indexes quote_name table_name c = (Ok m, c')
    /\ connection c' = db
    /\ forall n,
         match column_row cols n with
         | None => m !! n = None
         | Some r =>
             exists e, m !! n = Some e
               /\ primary_key e = negb (Sqlite.c_pk r =? 0)
               /\ (unique e = true <->
                   exists ix, ix ∈ rows /\ unique_on quote_name db ix n)
         end.
Proof.
  intros db cols rows Hcons. rewrite get_indexes_eq.
  destruct (for_each_mark_unique db rows (initial_indexes (info_of <$> cols))
              (log (Sqlite.PragmaIndexList (quote_name table_name))
                   (log (Sqlite.PragmaTableInfo (quote_name table_name)) c)))
    as (m & c' & Hrun & Hc' & Hm); [done| |].
  { intros ix n Hin Hon. rewrite initial_indexes_lookup.
    apply fmap_is_Some, column_row_is_Some. eauto. }
  exists m, c'. split; [exact Hrun|]. split; [done|].
  intros n. specialize (Hm n). rewrite initial_indexes_lookup in Hm.
  destruct (column_row cols n) as [r|]; simpl in Hm; [|done].
  destruct Hm as (e & He & Hpk & Hu). exists e. split; [done|]. split; [done|].
  rewrite Hu. split; [intros [H|H]; [done|done]|auto].
Qed.

End Indexes.

Lemma entries_is_Some (cols : list Sqlite.column_row) (m : gmap string index_flags)
    (P : string -> Prop) :
  (forall n, match column_row cols n with
             | None => m !! n = None
             | Some r => exists e, m !! n = Some e
                 /\ primary_key e = negb (Sqlite.c_pk r =? 0)
                 /\ (unique e = true <-> P n)
             end) ->
  forall n, is_Some (m !! n) <-> is_Some (column_row cols n).
Proof.
  intros H n. specialize (H n). destruct (column_row cols n) as [r|].
  - destruct H as (e & -> & _). split; eauto.
  - rewrite H. split; intros [? ?]; done.
Qed.

(** C9. When the columns that the unique single-column indexes cover are
    columns of the table, [get_indexes] returns a mapping whose keys are
    exactly the column names of PRAGMA table_info; the entry of a column has
    primary_key true exactly when the pk value of its row is not 0, and
    unique true exactly when a unique single-column index covers it. *)
Theorem get_indexes_entries (quote_name : string -> string)
    (table_name : string) (c : cursor) :
  (forall ix n,
     ix ∈ Sqlite.index_list (connection c) (quote_name table_name) ->
     unique_on quote_name (connection c) ix n ->
     n ∈ Sqlite.c_name <$> Sqlite.table_info (connection c) (quote_name table_name)) ->
  exists m c',
    get_indexes quote_name table_name c = (Ok m, c')
    /\ dom m
       = list_to_set
           (Sqlite.c_name <$> Sqlite.table_info (connection c) (quote_name table_name))
    /\ forall n e,
         m !! n = Some e ->
         exists r,
           column_row (Sqlite.table_info (connection c) (quote_name table_name)) n
             = Some r
           /\ (primary_key e = true <-> Sqlite.c_pk r <> 0)
           /\ (unique e = true <->
               exists ix,
                 ix ∈ Sqlite.index_list (connection c) (quote_name table_name)
                 /\ unique_on quote_name (connection c) ix n).
Proof.
  intros Hcons.
  destruct (get_indexes_spec quote_name table_name c Hcons) as (m & c' & Hrun & _ & Hm).
  exists m, c'. split; [done|]. split.
  - apply set_eq. intros n.
    rewrite elem_of_dom, elem_of_list_to_set, <- column_row_is_Some.
    by apply (entries_is_Some _ _ _ Hm).
  - intros n e He. specialize (Hm n).
    destruct (column_row _ n) as [r|]; [|congruence].
    destruct Hm as (e' & He' & Hpk & Hu).
    assert (e' = e) as -> by congruence. exists r.
    split; [done|]. split; [|done].
    rewrite Hpk, negb_true_iff, Z.eqb_neq. done.
Qed.

Example get_indexes_single :
  (get_indexes example_quote "t" (example_cursor single_db)).1
  = Ok (<[ "id" := {| primary_key := true; unique := false |} ]>
        (<[ "a" := {| primary_key := false; unique := true |} ]>
         (<[ "b" := {| primary_key := false; unique := false |} ]> ∅))).
Proof. vm_compute. reflexivity. Qed.

Example get_indexes_composite :
  (get_indexes example_quote "t" (example_cursor composite_db)).1
  = Ok (<[ "id" := {| primary_key := true; unique := false |} ]>
        (<[ "a" := {| primary_key := false; unique := false |} ]>
         (<[ "b" := {| primary_key := false; unique := false |} ]> ∅))).
Proof. vm_compute. reflexivity. Qed.

Lemma get_indexes_entries_witness :
  exists m c',
    get_indexes example_quote "t" (example_cursor single_db) = (Ok m, c')
    /\ dom m = list_to_set ["id"; "a"; "b"]
    /\ forall n e,
         m !! n = Some e ->
         exists r,
           column_row (Sqlite.table_info single_db (example_quote "t")) n = Some r
           /\ (primary_key e = true <-> Sqlite.c_pk r <> 0)
           /\ (unique e = true <->
               exists ix,
                 ix ∈ Sqlite.index_list single_db (example_quote "t")
                 /\ unique_on example_quote single_db ix n).
Proof.
  apply (get_indexes_entries example_quote "t" (example_cursor single_db)).
  intros ix n Hin (Hu & r & Hr & <-). revert Hin Hu Hr.
  change (Sqlite.index_list _ _) with
    [ {| Sqlite.i_seq := 0; Sqlite.i_name := "a_idx"; Sqlite.i_unique := 1 |};
      {| Sqlite.i_seq := 1; Sqlite.i_name := "b_idx"; Sqlite.i_unique := 0 |} ].
  rewrite !elem_of_cons, elem_of_nil.
  intros [-> | [-> | []]]; cbn [Sqlite.i_unique Sqlite.i_name]; [|done].
  intros _ Hr.
  change (Sqlite.index_info _ _) with
    [ {| Sqlite.ic_seqno := 0; Sqlite.ic_cid := 1; Sqlite.ic_name := "a" |} ] in Hr.
  injection Hr as <-.
  change (Sqlite.c_name <$> _) with ["id"; "a"; "b"].
  rewrite !elem_of_cons. auto.
Defined.

(** C6. When every unique index of the table is over several columns,
    [get_indexes] returns the entries of all the columns and each has
    unique false. *)
Theorem get_indexes_composite_only (quote_name : string -> string)
    (table_name : string) (c : cursor) :
  (forall ix,
     ix ∈ Sqlite.index_list (connection c) (quote_name table_name) ->
     Sqlite.i_unique ix <> 0 ->
     (2 <= length (Sqlite.index_info (connection c)
                     (quote_name (Sqlite.i_name ix))))%nat) ->
  exists m c',
    get_indexes quote_name table_name c = (Ok m, c')
    /\ dom m
       = list_to_set
           (Sqlite.c_name <$> Sqlite.table_info (connection c) (quote_name table_name))
    /\ forall n e, m !! n = Some e -> unique e = false.
Proof.
  intros Hcomp.
  assert (Hno : forall ix n,
            ix ∈ Sqlite.index_list (connection c) (quote_name table_name) ->
            ~ unique_on quote_name (connection c) ix n).
  { intros ix n Hin (Hu & r & Hr & _). specialize (Hcomp ix Hin Hu).
    rewrite Hr in Hcomp. simpl in Hcomp. lia. }
  destruct (get_indexes_spec quote_name table_name c) as (m & c' & Hrun & _ & Hm).
  { intros ix n Hin Hon. by destruct (Hno ix n). }
  exists m, c'. split; [done|]. split.
  - apply set_eq. intros n.
    rewrite elem_of_dom, elem_of_list_to_set, <- column_row_is_Some.
    by apply (entries_is_Some _ _ _ Hm).
  - intros n e He. specialize (Hm n).
    destruct (column_row _ n) as [r|]; [|congruence].
    destruct Hm as (e' & He' & _ & Hu).
    assert (e' = e) as -> by congruence.
    destruct (unique e) eqn:E; [|done].
    destruct Hu as [Hu _]. destruct (Hu eq_refl) as (ix & Hin & Hon).
    by destruct (Hno ix n).
Qed.

Lemma get_indexes_composite_only_witness :
  exists m c',
    get_indexes example_quote "t" (example_cursor composite_db) = (Ok m, c')
    /\ dom m = list_to_set ["id"; "a"; "b"]
    /\ forall n e, m !! n = Some e -> unique e = false.
Proof.
  apply (get_indexes_composite_only example_quote "t" (example_cursor composite_db)).
  intros ix.
  change (Sqlite.index_list _ _) with
    [ {| Sqlite.i_seq := 0; Sqlite.i_name := "ab_idx"; Sqlite.i_unique := 1 |} ].
  rewrite list_elem_of_singleton. intros -> _. vm_compute. lia.
Defined.




(** ** Further evaluations *)

Example getitem_spaced :
  __getitem__ ("  Char ( 007 ) " +:+ String "010" "")
  = Ok (FieldWithParams "CharField" {[ "max_length" := 7 ]}).
Proof. vm_compute. reflexivity. Qed.

Example getitem_char_bare : __getitem__ "CHAR" = Ok (FieldName "CharField").
Proof. vm_compute. reflexivity. Qed.

Example getitem_char_spaced_bare : __getitem__ " char " = Raise KeyError.
Proof. vm_compute. reflexivity. Qed.

Example getitem_char_no_length : __getitem__ "char()" = Raise KeyError.
Proof. vm_compute. reflexivity. Qed.

Example getitem_char_trailing : __getitem__ "char(3)x" = Raise KeyError.
Proof. vm_compute. reflexivity. Qed.

Example getitem_nvarchar : __getitem__ "nvarchar(30)" = Raise KeyError.
Proof. vm_compute. reflexivity. Qed.

(** An index over a name that PRAGMA table_info does not list makes the
    second loop raise KeyError: the hypothesis of [get_indexes_entries] is
    needed for a mapping to be returned. *)
Example get_indexes_dangling :
  (get_indexes example_quote "t"
     (example_cursor
        (example_db
           [ {| Sqlite.i_seq := 0; Sqlite.i_name := "x_idx"; Sqlite.i_unique := 1 |} ]
           (fun _ => [ {| Sqlite.ic_seqno := 0; Sqlite.ic_cid := 7;
                          Sqlite.ic_name := "x" |} ])))).1
  = Raise KeyError.
Proof. vm_compute. reflexivity. Qed.

(** * Further properties of the lookup *)

Section LookupFacts.

Lemma digit_value_range c : Str.is_digit c = true -> 0 <= Str.digit_value c <= 9.
Proof.
  unfold Str.is_digit, Str.digit_value.
  intros [H1%Nat.leb_le H2%Nat.leb_le]%andb_true_iff. lia.
Qed.

Lemma decimal_nonneg s : Str.all Str.is_digit s = true -> 0 <= Str.decimal s.
Proof.
  induction s as [|c s IH]; simpl; [lia|].
  intros [Hc Hs]%andb_true_iff. apply digit_value_range in Hc.
  specialize (IH Hs).
  assert (0 < 10 ^ Z.of_nat (String.length s)) by (apply Z.pow_pos_nonneg; lia).
  nia.
Qed.

Lemma decimal_leading_zero s : Str.decimal (String "0" s) = Str.decimal s.
Proof. simpl. change (Str.digit_value "0") with 0. lia. Qed.

(** A match of the pattern has the declared form, and its group 1 is the
    digits of that form. *)
Lemma char_type_search_inv s m :
  Re.search char_type_re s = Some m ->
  exists digits, char_type_form s digits /\ Re.group m 1 = Some digits.
Proof.
  intros Hm. destruct (char_type_inv s m Hm) as [digits Hform].
  exists digits. split; [done|].
  destruct (char_type_matches s digits Hform) as (m' & Hm' & Hg).
  congruence.
Qed.

Lemma form_has_paren s digits : char_type_form s digits -> Str.mem "(" s = true.
Proof.
  intros (ws1 & var & ws2 & ws3 & ws4 & ws5 & -> & _).
  rewrite !mem_app. change (Str.mem "(" "(") with true. by rewrite !orb_true_r.
Qed.

(** The result for a key whose lower-case form has the declared form. *)
Lemma getitem_of_form key digits :
  char_type_form (Str.lower key) digits ->
  __getitem__ key
  = Ok (FieldWithParams "CharField" {[ "max_length" := Str.decimal digits ]}).
Proof.
  intros Hform. unfold __getitem__. cbv zeta.
  rewrite not_plain_lookup by (eapply mem_paren_not_plain, form_has_paren, Hform).
  destruct (char_type_matches _ _ Hform) as (m & -> & ->).
  destruct Hform as (? & ? & ? & ? & ? & ? & _ & _ & _ & _ & _ & _ & _ & Hne & Hd).
  by rewrite int_decimal.
Qed.

(** The three outcomes of a lookup, by the lower-case form of the key. *)
Lemma getitem_cases key :
  (exists v, base_data_types_reverse !! Str.lower key = Some v
             /\ __getitem__ key = Ok (FieldName v))
  \/ (exists digits,
        base_data_types_reverse !! Str.lower key = None
        /\ char_type_form (Str.lower key) digits
        /\ __getitem__ key
           = Ok (FieldWithParams "CharField" {[ "max_length" := Str.decimal digits ]}))
  \/ (base_data_types_reverse !! Str.lower key = None
      /\ (~ exists digits, char_type_form (Str.lower key) digits)
      /\ __getitem__ key = Raise KeyError).
Proof.
  destruct (base_data_types_reverse !! Str.lower key) as [v|] eqn:Hk.
  - left. exists v. split; [done|]. unfold __getitem__. cbv zeta. by rewrite Hk.
  - right. destruct (Re.search char_type_re (Str.lower key)) as [m|] eqn:Hm.
    + left. apply char_type_search_inv in Hm as (digits & Hform & _).
      exists digits. split; [done|]. split; [done|]. by apply getitem_of_form.
    + right. split; [done|]. split.
      * intros [digits Hform].
        apply char_type_matches in Hform as (m & Hm' & _). congruence.
      * unfold __getitem__. cbv zeta. by rewrite Hk, Hm.
Qed.

End LookupFacts.

(** X1. A lookup either returns a field type or raises KeyError: group 1
    always took part in a match and is a digit string, so neither [int] nor
    [group] can fail. *)
Theorem getitem_only_KeyError (key : string) :
  (exists ft, __getitem__ key = Ok ft) \/ __getitem__ key = Raise KeyError.
Proof.
  destruct (getitem_cases key)
    as [(v & _ & ->) | [(digits & _ & _ & ->) | (_ & _ & ->)]]; eauto.
Qed.

(** X2. A result with keyword arguments is always the CharField one: its
    only argument is max_length, never negative, and it is the number
    written by the digits of a key of the form "char(N)" / "varchar(N)". *)
Theorem getitem_params_inv (key name : string) (params : gmap string Z) :
  __getitem__ key = Ok (FieldWithParams name params) ->
  name = "CharField"
  /\ exists digits,
       char_type_form (Str.lower key) digits
       /\ params = {[ "max_length" := Str.decimal digits ]}
       /\ 0 <= Str.decimal digits.
Proof.
  intros Hres.
  destruct (getitem_cases key)
    as [(v & _ & Hv) | [(digits & _ & Hform & Hd) | (_ & _ & Hk)]];
    rewrite Hres in *; [done| |done].
  injection Hd as -> ->. split; [done|]. exists digits.
  split; [done|]. split; [done|].
  destruct Hform as (? & ? & ? & ? & ? & ? & _ & _ & _ & _ & _ & _ & _ & _ & Hds).
  by apply decimal_nonneg.
Qed.

Lemma getitem_params_inv_witness :
  "CharField" = "CharField"
  /\ exists digits,
       char_type_form (Str.lower "Char(0)") digits
       /\ ({[ "max_length" := 0 ]} : gmap string Z) = {[ "max_length" := Str.decimal digits ]}
       /\ 0 <= Str.decimal digits.
Proof.
  apply (getitem_params_inv "Char(0)" "CharField" {[ "max_length" := 0 ]}).
  vm_compute. reflexivity.
Defined.

(** X4. KeyError is raised only for unknown types: the lower-case key is
    then not in the fixed table and has not the form "char(N)" /
    "varchar(N)". *)
Theorem getitem_KeyError_inv (key : string) :
  __getitem__ key = Raise KeyError ->
  base_data_types_reverse !! Str.lower key = None
  /\ ~ exists digits, char_type_form (Str.lower key) digits.
Proof.
  intros Hres.
  destruct (getitem_cases key)
    as [(v & _ & Hv) | [(digits & _ & _ & Hd) | (Hk & Hno & _)]];
    [congruence|congruence|done].
Qed.

Lemma getitem_KeyError_inv_witness :
  base_data_types_reverse !! Str.lower "BLOB" = None
  /\ ~ exists digits, char_type_form (Str.lower "BLOB") digits.
Proof.
  apply (getitem_KeyError_inv "BLOB"). vm_compute. reflexivity.
Defined.

Section CaseFacts.

(** The pieces of a key as C1 takes them give a lower-case form. *)
Lemma form_of_pieces (ws1 word ws2 ws3 digits ws4 ws5 : string) :
  Str.recased "char" word = true \/ Str.recased "varchar" word = true ->
  Str.all Str.is_space ws1 = true ->
  Str.all Str.is_space ws2 = true ->
  Str.all Str.is_space ws3 = true ->
  Str.all Str.is_space ws4 = true ->
  Str.all Str.is_space ws5 = true ->
  digits <> "" ->
  Str.all Str.is_digit digits = true ->
  char_type_form
    (Str.lower (ws1 +:+ word +:+ ws2 +:+ "(" +:+ ws3 +:+ digits +:+ ws4 +:+ ")" +:+ ws5))
    digits.
Proof.
  intros Hword H1 H2 H3 H4 H5 Hne Hd.
  rewrite !lower_app, (lower_spaces ws1), (lower_spaces ws2), (lower_spaces ws3),
    (lower_spaces ws4), (lower_spaces ws5), (lower_digits digits) by done.
  change (Str.lower "(") with "(". change (Str.lower ")") with ")".
  destruct Hword as [Hw|Hw]; apply recased_lower in Hw; try done; rewrite Hw.
  - exists ws1, "", ws2, ws3, ws4, ws5. rewrite app_empty_l. intuition.
  - exists ws1, "var", ws2, ws3, ws4, ws5.
    change "varchar" with ("var" +:+ "char"). rewrite app_assoc. intuition.
Qed.

End CaseFacts.

(** X6. The length is read in base ten whatever zeros are written in front
    of it: a key of the form "char(N)" / "varchar(N)" and the same key with
    a zero added in front of N resolve to the same CharField. *)
Theorem getitem_leading_zero (ws1 word ws2 ws3 digits ws4 ws5 : string) :
  Str.recased "char" word = true \/ Str.recased "varchar" word = true ->
  Str.all Str.is_space ws1 = true ->
  Str.all Str.is_space ws2 = true ->
  Str.all Str.is_space ws3 = true ->
  Str.all Str.is_space ws4 = true ->
  Str.all Str.is_space ws5 = true ->
  digits <> "" ->
  Str.all Str.is_digit digits = true ->
  __getitem__ (ws1 +:+ word +:+ ws2 +:+ "(" +:+ ws3 +:+ String "0" digits
                   +:+ ws4 +:+ ")" +:+ ws5)
  = __getitem__ (ws1 +:+ word +:+ ws2 +:+ "(" +:+ ws3 +:+ digits
                     +:+ ws4 +:+ ")" +:+ ws5).
Proof.
  intros Hword H1 H2 H3 H4 H5 Hne Hd.
  pose proof (form_of_pieces ws1 word ws2 ws3 digits ws4 ws5
                Hword H1 H2 H3 H4 H5 Hne Hd) as Hplain.
  assert (Hzero : char_type_form
            (Str.lower (ws1 +:+ word +:+ ws2 +:+ "(" +:+ ws3 +:+ String "0" digits
                            +:+ ws4 +:+ ")" +:+ ws5))
            (String "0" digits)).
  { apply form_of_pieces; done. }
  rewrite (getitem_of_form _ _ Hzero), (getitem_of_form _ _ Hplain).
  by rewrite decimal_leading_zero.
Qed.

Lemma getitem_leading_zero_witness :
  __getitem__ "varchar(010)" = __getitem__ "varchar(10)".
Proof.
  apply (getitem_leading_zero "" "varchar" "" "" "10" "" "");
    [right; reflexivity|reflexivity..|discriminate|reflexivity].
Defined.

(** * Further properties of the introspection *)

(** X7. The table listing does not depend on the order in which the catalog
    holds its rows: two catalogs with the same rows give the same list. *)
Theorem get_table_list_order_independent (c1 c2 : cursor) :
  Sqlite.sqlite_master (connection c1) ≡ₚ Sqlite.sqlite_master (connection c2) ->
  (get_table_list c1).1 = (get_table_list c2).1.
Proof.
  intros Hperm. rewrite !get_table_list_eq. simpl. f_equal.
  unfold Sqlite.select_table_names.
  apply (StronglySorted_unique String.le).
  - apply StronglySorted_merge_sort; apply _.
  - apply StronglySorted_merge_sort; apply _.
  - rewrite !merge_sort_Permutation. by rewrite Hperm.
Qed.

Lemma get_table_list_order_independent_witness :
  (get_table_list (example_cursor (example_db [] (fun _ => [])))).1
  = (get_table_list
       (example_cursor
          {| Sqlite.sqlite_master :=
               reverse (Sqlite.sqlite_master (example_db [] (fun _ => [])));
             Sqlite.table_info := fun _ => [];
             Sqlite.index_list := fun _ => [];
             Sqlite.index_info := fun _ => [] |})).1.
Proof.
  apply (get_table_list_order_independent
           (example_cursor (example_db [] (fun _ => [])))).
  simpl. symmetry. apply reverse_Permutation.
Defined.

Section IndexesFailure.
Variable quote_name : string -> string.
Variable db : Sqlite.database.

(** The second loop raises KeyError as soon as a unique single-column index
    covers a name without an entry. *)
Lemma for_each_mark_unique_KeyError rows : forall (m : gmap string index_flags) c,
  connection c = db ->
  (exists ix n, ix ∈ rows /\ unique_on quote_name db ix n /\ m !! n = None) ->
  exists c',
    for_each (mark_unique quote_name) m
      ((fun field => (Sqlite.i_name field, Sqlite.i_unique field)) <$> rows) c
    = (Raise KeyError, c').
Proof.
  induction rows as [|ix0 rows IH]; intros m c Hc (ix & n & Hin & Hon & Hn).
  { by apply elem_of_nil in Hin. }
  rewrite fmap_cons, for_each_cons, mark_unique_run.
  destruct (truthy (Sqlite.i_unique ix0)) eqn:Ht; cbv zeta.
  - rewrite Hc.
    destruct (Sqlite.index_info db (quote_name (Sqlite.i_name ix0)))
      as [|r [|r' rest]] eqn:Hinfo.
    + apply IH; [done|]. exists ix, n.
      apply elem_of_cons in Hin as [->|Hin]; [|done].
      destruct Hon as (_ & r & Hr & _). congruence.
    + destruct (m !! Sqlite.ic_name r) as [d|] eqn:Hd; [|eauto].
      apply IH; [done|]. exists ix, n.
      assert (Hne : n <> Sqlite.ic_name r) by congruence.
      rewrite lookup_insert_ne by done.
      apply elem_of_cons in Hin as [->|Hin]; [|done].
      destruct Hon as (_ & r0 & Hr0 & Hn0). congruence.
    + apply IH; [done|]. exists ix, n.
      apply elem_of_cons in Hin as [->|Hin]; [|done].
      destruct Hon as (_ & r0 & Hr0 & _). congruence.
  - apply IH; [done|]. exists ix, n.
    apply elem_of_cons in Hin as [->|Hin]; [|done].
    destruct Hon as (Hu & _). unfold truthy in Ht.
    apply negb_false_iff, Z.eqb_eq in Ht. done.
Qed.

(** The statements the second loop executes: one PRAGMA index_info per
    unique index, in the order of the index list. *)
Lemma for_each_mark_unique_log rows : forall (m m' : gmap string index_flags) c c',
  for_each (mark_unique quote_name) m
    ((fun field => (Sqlite.i_name field, Sqlite.i_unique field)) <$> rows) c
  = (Ok m', c') ->
  executed c'
  = executed c
    ++ ((fun ix => Sqlite.PragmaIndexInfo (quote_name (Sqlite.i_name ix)))
          <$> filter (fun ix => Sqlite.i_unique ix <> 0) rows).
Proof.
  induction rows as [|ix0 rows IH]; intros m m' c c'.
  { intros [= _ <-]. by rewrite app_nil_r. }
  rewrite fmap_cons, for_each_cons, mark_unique_run, filter_cons.
  destruct (truthy (Sqlite.i_unique ix0)) eqn:Ht; cbv zeta;
    unfold truthy in Ht.
  - apply negb_true_iff, Z.eqb_neq in Ht.
    destruct (decide (Sqlite.i_unique ix0 <> 0)) as [_|Hu]; [|done].
    rewrite fmap_cons.
    assert (Hstep : forall m1 : gmap string index_flags,
              for_each (mark_unique quote_name) m1
                ((fun field => (Sqlite.i_name field, Sqlite.i_unique field)) <$> rows)
                (log (Sqlite.PragmaIndexInfo (quote_name (Sqlite.i_name ix0))) c)
              = (Ok m', c') ->
              executed c'
              = executed c
                ++ Sqlite.PragmaIndexInfo (quote_name (Sqlite.i_name ix0))
                   :: ((fun ix => Sqlite.PragmaIndexInfo (quote_name (Sqlite.i_name ix)))
                         <$> filter (fun ix => Sqlite.i_unique ix <> 0) rows)).
    { intros m1 Hrun. rewrite (IH _ _ _ _ Hrun). simpl.
      by rewrite <- List.app_assoc. }
    destruct (Sqlite.index_info (connection c) (quote_name (Sqlite.i_name ix0)))
      as [|r [|r' rest]]; [apply Hstep| |apply Hstep].
    destruct (m !! Sqlite.ic_name r); [apply Hstep|done].
  - apply negb_false_iff, Z.eqb_eq in Ht.
    destruct (decide (Sqlite.i_unique ix0 <> 0)) as [Hu|_]; [done|].
    apply IH.
Qed.

End IndexesFailure.

(** X8. [get_indexes] raises KeyError when a unique single-column index of
    the table covers a name that PRAGMA table_info does not list: the
    assignment indexes[name]['unique'] finds no entry. *)
Theorem get_indexes_KeyError (quote_name : string -> string)
    (table_name : string) (c : cursor) :
  (exists ix n,
     ix ∈ Sqlite.index_list (connection c) (quote_name table_name)
     /\ unique_on quote_name (connection c) ix n
     /\ n ∉ Sqlite.c_name <$> Sqlite.table_info (connection c) (quote_name table_name)) ->
  exists c', get_indexes quote_name table_name c = (Raise KeyError, c').
Proof.
  intros (ix & n & Hin & Hon & Hn). rewrite get_indexes_eq.
  apply (for_each_mark_unique_KeyError quote_name (connection c)); [done|].
  exists ix, n. split; [done|]. split; [done|].
  rewrite initial_indexes_lookup.
  destruct (column_row _ n) as [r|] eqn:Hr; [|done].
  destruct Hn. apply column_row_is_Some. eauto.
Qed.

Lemma get_indexes_KeyError_witness :
  exists c',
    get_indexes example_quote "t"
      (example_cursor
         (example_db
            [ {| Sqlite.i_seq := 0; Sqlite.i_name := "x_idx"; Sqlite.i_unique := 1 |} ]
            (fun _ => [ {| Sqlite.ic_seqno := 0; Sqlite.ic_cid := 7;
                           Sqlite.ic_name := "x" |} ])))
    = (Raise KeyError, c').
Proof.
  apply (get_indexes_KeyError example_quote "t").
  exists {| Sqlite.i_seq := 0; Sqlite.i_name := "x_idx"; Sqlite.i_unique := 1 |}, "x".
  split; [by left|]. split.
  - split; [discriminate|]. eexists. split; reflexivity.
  - change (Sqlite.c_name <$> _) with ["id"; "a"; "b"].
    rewrite !elem_of_cons, elem_of_nil. intros [H|[H|[H|[]]]]; discriminate H.
Defined.

(** X9. When [get_indexes] returns a mapping it has executed, on the same
    connection, PRAGMA table_info and PRAGMA index_list for the table and
    then one PRAGMA index_info for each unique index, in the order of the
    index list; indexes that are not unique are never looked into. *)
Theorem get_indexes_statements (quote_name : string -> string)
    (table_name : string) (c : cursor) :
  (forall ix n,
     ix ∈ Sqlite.index_list (connection c) (quote_name table_name) ->
     unique_on quote_name (connection c) ix n ->
     n ∈ Sqlite.c_name <$> Sqlite.table_info (connection c) (quote_name table_name)) ->
  exists m c',
    get_indexes quote_name table_name c = (Ok m, c')
    /\ connection c' = connection c
    /\ executed c'
       = executed c
         ++ [ Sqlite.PragmaTableInfo (quote_name table_name);
              Sqlite.PragmaIndexList (quote_name table_name) ]
         ++ ((fun ix => Sqlite.PragmaIndexInfo (quote_name (Sqlite.i_name ix)))
               <$> filter (fun ix => Sqlite.i_unique ix <> 0)
                     (Sqlite.index_list (connection c) (quote_name table_name))).
Proof.
  intros Hcons.
  destruct (get_indexes_spec quote_name table_name c Hcons) as (m & c' & Hrun & Hc' & _).
  exists m, c'. split; [done|]. split; [done|].
  rewrite get_indexes_eq in Hrun.
  apply for_each_mark_unique_log in Hrun. rewrite Hrun. simpl.
  by rewrite <- !List.app_assoc.
Qed.

Lemma get_indexes_statements_witness :
  exists m c',
    get_indexes example_quote "t" (example_cursor single_db) = (Ok m, c')
    /\ connection c' = single_db
    /\ executed c'
       = [ Sqlite.PragmaTableInfo (example_quote "t");
           Sqlite.PragmaIndexList (example_quote "t");
           Sqlite.PragmaIndexInfo (example_quote "a_idx") ].
Proof.
  apply (get_indexes_statements example_quote "t" (example_cursor single_db)).
  intros ix n Hin (Hu & r & Hr & <-). revert Hin Hu Hr.
  change (Sqlite.index_list _ _) with
    [ {| Sqlite.i_seq := 0; Sqlite.i_name := "a_idx"; Sqlite.i_unique := 1 |};
      {| Sqlite.i_seq := 1; Sqlite.i_name := "b_idx"; Sqlite.i_unique := 0 |} ].
  rewrite !elem_of_cons, elem_of_nil.
  intros [-> | [-> | []]]; cbn [Sqlite.i_unique Sqlite.i_name]; [|done].
  intros _ Hr.
  change (Sqlite.index_info _ _) with
    [ {| Sqlite.ic_seqno := 0; Sqlite.ic_cid := 1; Sqlite.ic_name := "a" |} ] in Hr.
  injection Hr as <-.
  change (Sqlite.c_name <$> _) with ["id"; "a"; "b"].
  rewrite !elem_of_cons. auto.
Defined.

(** X10. [get_indexes] and [get_table_description] agree on the columns:
    run one after the other on the same cursor, the keys of the mapping are
    exactly the names at position 0 of the description tuples. *)
Theorem get_indexes_keys_described (quote_name : string -> string)
    (table_name : string) (c : cursor) :
  (forall ix n,
     ix ∈ Sqlite.index_list (connection c) (quote_name table_name) ->
     unique_on quote_name (connection c) ix n ->
     n ∈ Sqlite.c_name <$> Sqlite.table_info (connection c) (quote_name table_name)) ->
  exists m c1 tuples c2,
    get_indexes quote_name table_name c = (Ok m, c1)
    /\ get_table_description quote_name table_name c1 = (Ok tuples, c2)
    /\ forall n : string,
         n ∈ dom m <-> exists tuple, tuple ∈ tuples /\ tuple !! 0%nat = Some (PyStr n).
Proof.
  intros Hcons.
  destruct (get_indexes_spec quote_name table_name c Hcons) as (m & c1 & Hrun & Hc1 & Hm).
  eexists m, c1, _, _. split; [done|].
  split; [apply get_table_description_eq|].
  intros n. rewrite Hc1, elem_of_dom, (entries_is_Some _ _ _ Hm n), column_row_is_Some.
  rewrite list_elem_of_fmap. split.
  - intros (r & -> & Hr).
    exists [ PyStr (Sqlite.c_name r); PyStr (Sqlite.c_type r);
             PyNone; PyNone; PyNone; PyNone; PyBool (Sqlite.c_notnull r =? 0) ].
    split; [|reflexivity].
    apply list_elem_of_fmap. exists r. split; [reflexivity|done].
  - intros (tuple & (r & -> & Hr)%list_elem_of_fmap & Hn).
    injection Hn as <-. eauto.
Qed.

Lemma get_indexes_keys_described_witness :
  exists m c1 tuples c2,
    get_indexes example_quote "t" (example_cursor composite_db) = (Ok m, c1)
    /\ get_table_description example_quote "t" c1 = (Ok tuples, c2)
    /\ forall n : string,
         n ∈ dom m <-> exists tuple, tuple ∈ tuples /\ tuple !! 0%nat = Some (PyStr n).
Proof.
  apply (get_indexes_keys_described example_quote "t" (example_cursor composite_db)).
  intros ix n Hin (_ & r & Hr & _). revert Hin Hr.
  change (Sqlite.index_list _ _) with
    [ {| Sqlite.i_seq := 0; Sqlite.i_name := "ab_idx"; Sqlite.i_unique := 1 |} ].
  rewrite list_elem_of_singleton. intros ->. discriminate.
Defined.
